(** * The distributed ARP table of batman-adv (distributed-arp-table.c)

    A shallow embedding of the local entry cache, of the candidate selection
    on the DHT ring and of the dissemination loop, followed by the properties
    of the code that the specification states.

    Conventions.
    - A [uint32_t] is a [Z] in [0, 2^32); every C operation that can leave the
      range is followed by [u32].
    - An [__be32] address is the number whose big-endian bytes are the four
      bytes in memory, so [key[0]] is its most significant byte.
    - A hardware address (6 bytes) is the number with those big-endian bytes;
      [memcmp] equality on it is equality of numbers.
    - A NULL pointer is [None]; reading through it is the outcome [Oops].
    - Reference counters are [atomic_t]; they are modelled as unbounded [Z]
      because no path below moves one by more than a handful of units. *)

From stdpp Require Import base list functions.
From Stdlib Require Import ZArith Lia.

Local Open Scope Z_scope.

(** ** Outcomes of code that may dereference NULL *)

Inductive result (A : Type) : Type :=
| Ok (a : A)
| Oops.
Arguments Ok {A} a.
Arguments Oops {A}.

Definition bind {A B : Type} (r : result A) (k : A -> result B) : result B :=
  match r with
  | Ok a => k a
  | Oops => Oops
  end.

Notation "'do' x <- r ; k" := (bind r (fun x => k))
  (at level 10, x name, r at level 100, k at level 200).

(** ** Machine integers *)

Definition u32 (z : Z) : Z := z mod 2 ^ 32.

(** Modelled from the spec: the typedef [batadv_dat_addr_t] and the macro
    [BATADV_DAT_ADDR_MAX] live in types.h, which is not part of the sources.
    The spec fixes the ring width to the full 32-bit unsigned space, so the
    address type is [uint32_t] and its largest value is all ones. *)
Definition BATADV_DAT_ADDR_MAX : Z := 2 ^ 32 - 1.

(** Modelled from the spec: [BATADV_DAT_CANDIDATES_NUM] (main.h) is the
    candidate count K, for which the spec gives 3. *)
Definition BATADV_DAT_CANDIDATES_NUM : nat := 3%nat.

(** Modelled from the spec: [batadv_compare_eth] is an inline helper of
    main.h.  [batadv_dat_entry_add] overwrites the stored hardware address
    when [!batadv_compare_eth(stored, new)], and the spec says that this
    happens only if the two differ: the helper is the equality test on the six
    bytes, returning 1 on equal addresses and 0 otherwise, like its sibling
    [batadv_compare_dat] below. *)
Definition batadv_compare_eth (data1 data2 : Z) : Z :=
  if data1 =? data2 then 1 else 0.

(** ** Hashing *)

(** The four bytes of an [__be32] as they lie in memory. *)
Definition be32_bytes (ip : Z) : list Z :=
  [ Z.land (Z.shiftr ip 24) 255; Z.land (Z.shiftr ip 16) 255;
    Z.land (Z.shiftr ip 8) 255; Z.land ip 255 ].

(** One turn of the loop of [batadv_hash_dat]. *)
Definition hash_dat_step (hash key_i : Z) : Z :=
  let hash := u32 (hash + key_i) in
  let hash := u32 (hash + u32 (Z.shiftl hash 10)) in
  Z.lxor hash (Z.shiftr hash 6).

(** The Jenkins one-at-a-time hash of [key[0..3]] before the final reduction. *)
Definition hash_dat_mix (key : list Z) : Z :=
  let hash := fold_left hash_dat_step (take 4 key) 0 in
  let hash := u32 (hash + u32 (Z.shiftl hash 3)) in
  let hash := Z.lxor hash (Z.shiftr hash 11) in
  u32 (hash + u32 (Z.shiftl hash 15)).

Definition batadv_hash_dat (data : list Z) (size : Z) : Z :=
  hash_dat_mix data mod size.

(** ** The originator registry *)

(** An originator as this file reads it: [node_ptr] is the address of the
    struct (its identity), [orig] the hardware address and [dat_addr] the ring
    position.  The registry is read-only here except for the reference
    counters, which are kept apart, indexed by the address of the node. *)
Record batadv_orig_node : Type := {
  node_ptr : Z;
  orig : Z;
  dat_addr : Z
}.

Definition refcounts : Type := Z -> Z.

(** [atomic_inc_not_zero]: [None] when the counter is 0, else the store with
    the counter incremented. *)
Definition atomic_inc_not_zero (refs : refcounts) (p : Z) : option refcounts :=
  if refs p =? 0 then None else Some (alter (fun r => r + 1) p refs).

(** Modelled from the spec: [batadv_orig_node_free_ref] (originator.c) gives
    back one reference to a node. *)
Definition batadv_orig_node_free_ref (refs : refcounts) (p : Z) : refcounts :=
  alter (fun r => r - 1) p refs.

(** ** Candidates *)

Inductive batadv_dat_candidate_type : Type :=
| BATADV_DAT_CANDIDATE_NOT_FOUND
| BATADV_DAT_CANDIDATE_ORIG.

(** A slot of the candidate array.  The array comes from [kmalloc], so the
    [orig_node] field of a slot holds whatever the memory held until a round
    stores a node in it. *)
Record batadv_dat_candidate : Type := {
  type : batadv_dat_candidate_type;
  orig_node : batadv_orig_node
}.

Definition is_found (c : batadv_dat_candidate) : bool :=
  match type c with
  | BATADV_DAT_CANDIDATE_ORIG => true
  | BATADV_DAT_CANDIDATE_NOT_FOUND => false
  end.

(** [cands[select].type = t] *)
Definition set_type (cands : list batadv_dat_candidate) (select : nat)
    (t : batadv_dat_candidate_type) : list batadv_dat_candidate :=
  match cands !! select with
  | Some c => <[select := {| type := t; orig_node := orig_node c |}]> cands
  | None => cands
  end.

(** The ring distance of a node as [batadv_choose_next_candidate] computes
    it: [BATADV_DAT_ADDR_MAX - orig_node->dat_addr + ip_key] in
    [batadv_dat_addr_t]. *)
Definition dat_distance (ip_key : Z) (node : batadv_orig_node) : Z :=
  u32 (BATADV_DAT_ADDR_MAX - dat_addr node + ip_key).

Definition batadv_is_orig_node_eligible (res : list batadv_dat_candidate)
    (select : nat) (tmp_max max last_max : Z) (candidate : batadv_orig_node)
    (max_orig_node : option batadv_orig_node) : result bool :=
  (* Check if this node has already been selected... and possibly skip it *)
  if existsb (fun c => node_ptr (orig_node c) =? node_ptr candidate)
       (take select res)
  then Ok false
  (* sanity check: has it already been selected? *)
  else if tmp_max >? last_max then Ok false
  (* an originator with a closer dht address has already been found *)
  else if tmp_max <? max then Ok false
  (* hash collision with the temporary selected node *)
  else if tmp_max =? max then
    match max_orig_node with
    | None => Oops
    | Some m =>
        if batadv_compare_eth (orig candidate) (orig m) >? 0
        then Ok false else Ok true
    end
  else Ok true.

(** The locals of [batadv_choose_next_candidate] that the scan updates,
    together with the reference counters. *)
Record scan_state : Type := {
  max : Z;
  max_orig_node : option batadv_orig_node;
  refs : refcounts
}.

(** The body of the inner loop, for one node of the registry. *)
Definition scan_node (cands : list batadv_dat_candidate) (select : nat)
    (ip_key last_max : Z) (st : scan_state) (node : batadv_orig_node)
    : result scan_state :=
  let tmp_max := dat_distance ip_key node in
  do eligible <- batadv_is_orig_node_eligible cands select tmp_max (max st)
                   last_max node (max_orig_node st);
  if negb eligible then Ok st
  else
    match atomic_inc_not_zero (refs st) (node_ptr node) with
    | None => Ok st
    | Some refs1 =>
        let refs2 :=
          match max_orig_node st with
          | Some m => batadv_orig_node_free_ref refs1 (node_ptr m)
          | None => refs1
          end in
        Ok {| max := tmp_max; max_orig_node := Some node; refs := refs2 |}
    end.

(** [hlist_for_each_entry_rcu] over one bucket. *)
Fixpoint scan_bucket (cands : list batadv_dat_candidate) (select : nat)
    (ip_key last_max : Z) (head : list batadv_orig_node) (st : scan_state)
    : result scan_state :=
  match head with
  | [] => Ok st
  | node :: rest =>
      do st' <- scan_node cands select ip_key last_max st node;
      scan_bucket cands select ip_key last_max rest st'
  end.

(** [for (i = 0; i < hash->size; i++)] over the buckets. *)
Fixpoint scan_table (cands : list batadv_dat_candidate) (select : nat)
    (ip_key last_max : Z) (table : list (list batadv_orig_node))
    (st : scan_state) : result scan_state :=
  match table with
  | [] => Ok st
  | head :: rest =>
      do st' <- scan_bucket cands select ip_key last_max head st;
      scan_table cands select ip_key last_max rest st'
  end.

(** What the selection threads from round to round: the candidate array,
    [last_max] and the reference counters. *)
Record select_state : Type := {
  sel_cands : list batadv_dat_candidate;
  sel_last_max : Z;
  sel_refs : refcounts
}.

Definition batadv_choose_next_candidate
    (orig_hash : list (list batadv_orig_node)) (select : nat) (ip_key : Z)
    (s : select_state) : result select_state :=
  let cands := set_type (sel_cands s) select BATADV_DAT_CANDIDATE_NOT_FOUND in
  do st <- scan_table cands select ip_key (sel_last_max s) orig_hash
             {| max := 0; max_orig_node := None; refs := sel_refs s |};
  let cands :=
    match max_orig_node st with
    | Some m =>
        <[select := {| type := BATADV_DAT_CANDIDATE_ORIG; orig_node := m |}]>
          cands
    | None => cands
    end in
  Ok {| sel_cands := cands; sel_last_max := max st; sel_refs := refs st |}.

(** [rounds] turns of the loop of [batadv_dat_select_candidates], from index
    [select] on. *)
Fixpoint select_rounds (orig_hash : list (list batadv_orig_node))
    (ip_key : Z) (rounds : nat) (select : nat) (s : select_state)
    : result select_state :=
  match rounds with
  | O => Ok s
  | S rounds' =>
      do s' <- batadv_choose_next_candidate orig_hash select ip_key s;
      select_rounds orig_hash ip_key rounds' (S select) s'
  end.

(** The key on the ring: [batadv_hash_dat(&ip_dst, BATADV_DAT_ADDR_MAX)]
    converted to [batadv_dat_addr_t]. *)
Definition dat_ip_key (ip_dst : Z) : Z :=
  u32 (batadv_hash_dat (be32_bytes ip_dst) BATADV_DAT_ADDR_MAX).

(** [kmalloc] of an array of [n] slots, with the contents [garbage] that the
    memory happens to hold. *)
Definition kmalloc_array (garbage : nat -> batadv_dat_candidate) (n : nat)
    : list batadv_dat_candidate :=
  map garbage (seq 0 n).

(** [orig_hash] is [bat_priv->orig_hash] ([None] when NULL); [kmalloc] is
    [None] when the allocation fails and the contents of the fresh memory
    otherwise.  The result is the candidate array ([None] for NULL) and the
    reference counters. *)
Definition batadv_dat_select_candidates
    (orig_hash : option (list (list batadv_orig_node)))
    (kmalloc : option (nat -> batadv_dat_candidate)) (ip_dst : Z)
    (refs0 : refcounts)
    : result (option (list batadv_dat_candidate) * refcounts) :=
  match orig_hash with
  | None => Ok (None, refs0)
  | Some table =>
      match kmalloc with
      | None => Ok (None, refs0)
      | Some garbage =>
          let res := kmalloc_array garbage BATADV_DAT_CANDIDATES_NUM in
          let ip_key := dat_ip_key ip_dst in
          do s <- select_rounds table ip_key BATADV_DAT_CANDIDATES_NUM 0
                    {| sel_cands := res;
                       sel_last_max := BATADV_DAT_ADDR_MAX;
                       sel_refs := refs0 |};
          Ok (Some (sel_cands s), sel_refs s)
      end
  end.

(** ** The local cache *)

Record batadv_dat_entry : Type := {
  ip : Z;
  mac_addr : Z;
  last_update : Z;
  refcount : Z
}.

Definition set_mac_addr (e : batadv_dat_entry) (mac : Z) : batadv_dat_entry :=
  {| ip := ip e; mac_addr := mac; last_update := last_update e;
     refcount := refcount e |}.

Definition set_last_update (e : batadv_dat_entry) (t : Z) : batadv_dat_entry :=
  {| ip := ip e; mac_addr := mac_addr e; last_update := t;
     refcount := refcount e |}.

Definition set_refcount (e : batadv_dat_entry) (r : Z) : batadv_dat_entry :=
  {| ip := ip e; mac_addr := mac_addr e; last_update := last_update e;
     refcount := r |}.

(** The hash table of the cache: [hash->table], a bucket per index;
    [hash->size] is the number of buckets.  [bat_priv->dat.hash] is an
    [option] of it, [None] when NULL. *)
Abbreviation batadv_hashtable := (list (list batadv_dat_entry)) (only parsing).

Definition hash_size (t : batadv_hashtable) : Z := Z.of_nat (length t).

(** The address of an entry: its bucket and its place in the bucket. *)
Definition dat_handle : Type := (nat * nat)%type.

Definition entry_at (t : batadv_hashtable) (h : dat_handle)
    : option batadv_dat_entry :=
  match t !! h.1 with
  | Some head => head !! h.2
  | None => None
  end.

Definition store_at (t : batadv_hashtable) (h : dat_handle)
    (e : batadv_dat_entry) : batadv_hashtable :=
  alter (fun head => <[h.2 := e]> head) h.1 t.

(** [atomic_dec_and_test] followed by [kfree_rcu] when the counter reached
    zero: the entry after the decrement, and whether it was handed to
    [kfree_rcu]. *)
Definition batadv_dat_entry_free_ref (dat_entry : batadv_dat_entry)
    : batadv_dat_entry * bool :=
  let e := set_refcount dat_entry (refcount dat_entry - 1) in
  (e, refcount e =? 0).

(** Modelled from the spec: [batadv_has_timed_out] is a macro of main.h; the
    spec gives the staleness test as [now - last_update > timeout], both in
    jiffies. *)
Definition batadv_has_timed_out (jiffies timestamp timeout : Z) : bool :=
  jiffies - timestamp >? timeout.

(** [timeout] stands for [BATADV_DAT_ENTRY_TIMEOUT], which the sources use
    and do not define, and [jiffies] for the clock at the call. *)
Definition batadv_dat_to_purge (timeout jiffies : Z)
    (dat_entry : batadv_dat_entry) : bool :=
  batadv_has_timed_out jiffies (last_update dat_entry) timeout.

(** [hlist_for_each_entry_safe] over one bucket: the entries left in the
    bucket and those handed to [kfree_rcu], in the order of the scan. *)
Fixpoint purge_bucket (to_purge : option (batadv_dat_entry -> bool))
    (head : list batadv_dat_entry)
    : list batadv_dat_entry * list batadv_dat_entry :=
  match head with
  | [] => ([], [])
  | dat_entry :: rest =>
      let '(kept, freed) := purge_bucket to_purge rest in
      if match to_purge with
         | Some f => negb (f dat_entry)
         | None => false
         end
      then (dat_entry :: kept, freed)
      else
        (* hlist_del_rcu(node); batadv_dat_entry_free_ref(dat_entry); *)
        let '(e, released) := batadv_dat_entry_free_ref dat_entry in
        (kept, if released then e :: freed else freed)
  end.

Definition __batadv_dat_purge (hash : option batadv_hashtable)
    (to_purge : option (batadv_dat_entry -> bool))
    : option batadv_hashtable * list batadv_dat_entry :=
  match hash with
  | None => (None, [])
  | Some t =>
      let swept := map (purge_bucket to_purge) t in
      (Some (map fst swept), concat (map snd swept))
  end.

(** The periodic worker, without the timer it restarts. *)
Definition batadv_dat_purge (timeout jiffies : Z)
    (hash : option batadv_hashtable)
    : option batadv_hashtable * list batadv_dat_entry :=
  __batadv_dat_purge hash (Some (batadv_dat_to_purge timeout jiffies)).

(** The entry starts with its [ip] field, so the [memcmp] of the first four
    bytes compares [ip] with the key. *)
Definition batadv_compare_dat (node : batadv_dat_entry) (data2 : Z) : Z :=
  if ip node =? data2 then 1 else 0.

(** The bucket an address hashes to.  A table without buckets makes the
    remainder in [batadv_hash_dat] undefined; no table is built that way
    ([batadv_dat_init] asks for 1024 buckets). *)
Definition dat_index (t : batadv_hashtable) (ip4 : Z) : nat :=
  Z.to_nat (batadv_hash_dat (be32_bytes ip4) (hash_size t)).

(** The loop of [batadv_dat_entry_hash_find] over one bucket: the place and
    contents of the entry found, after its counter was raised, and the bucket
    with that counter raised. *)
Fixpoint hash_find_bucket (ip4 : Z) (head : list batadv_dat_entry)
    : option (nat * batadv_dat_entry) * list batadv_dat_entry :=
  match head with
  | [] => (None, [])
  | dat_entry :: rest =>
      let skip :=
        let '(found, rest') := hash_find_bucket ip4 rest in
        (match found with
         | Some (i, e) => Some (S i, e)
         | None => None
         end, dat_entry :: rest') in
      if negb (ip dat_entry =? ip4) then skip
      (* atomic_inc_not_zero(&dat_entry->refcount) *)
      else if refcount dat_entry =? 0 then skip
      else
        let e := set_refcount dat_entry (refcount dat_entry + 1) in
        (Some (0%nat, e), e :: rest)
  end.

Definition batadv_dat_entry_hash_find (hash : option batadv_hashtable)
    (ip4 : Z)
    : option (dat_handle * batadv_dat_entry) * option batadv_hashtable :=
  match hash with
  | None => (None, None)
  | Some t =>
      let index := dat_index t ip4 in
      match t !! index with
      | None => (None, Some t)
      | Some head =>
          match hash_find_bucket ip4 head with
          | (Some (i, e), head') =>
              (Some ((index, i), e), Some (<[index := head']> t))
          | (None, _) => (None, Some t)
          end
      end
  end.

(** Modelled from the spec: [batadv_hash_add] is an inline helper of hash.h.
    By the spec an insertion loses when the bucket already holds an entry
    with the same key and otherwise links the new entry into the bucket the
    key hashes to; the caller reads 0 as success.  The new entry is linked at
    the head of the bucket.  Without a table, or without the bucket, nothing
    is linked and the answer is not 0. *)
Definition batadv_hash_add (hash : option batadv_hashtable)
    (data : Z) (data_node : batadv_dat_entry)
    : Z * option batadv_hashtable :=
  match hash with
  | None => (-1, None)
  | Some t =>
      let index := dat_index t data in
      match t !! index with
      | None => (-1, Some t)
      | Some head =>
          if existsb (fun node => negb (batadv_compare_dat node data =? 0)) head
          then (1, Some t)
          else (0, Some (<[index := data_node :: head]> t))
      end
  end.

(** The first half of [batadv_dat_entry_add], taken when the entry is already
    known: [h] and [dat_entry] are what the lookup returned. *)
Definition batadv_dat_entry_add_known (t : batadv_hashtable) (h : dat_handle)
    (dat_entry : batadv_dat_entry) (mac : Z) (jiffies : Z)
    : option batadv_hashtable * list batadv_dat_entry :=
  let e :=
    if batadv_compare_eth (mac_addr dat_entry) mac =? 0
    then set_mac_addr dat_entry mac   (* memcpy *)
    else dat_entry in
  let e := set_last_update e jiffies in
  (* out: batadv_dat_entry_free_ref(dat_entry) *)
  let '(e, released) := batadv_dat_entry_free_ref e in
  (Some (store_at t h e), if released then [e] else []).

(** The second half of [batadv_dat_entry_add], from [kmalloc] on, against the
    table as it is when [batadv_hash_add] runs.  [kmalloc] tells whether the
    allocation succeeds. *)
Definition batadv_dat_entry_add_new (hash : option batadv_hashtable)
    (ip4 mac : Z) (jiffies : Z) (kmalloc : bool)
    : option batadv_hashtable * list batadv_dat_entry :=
  if negb kmalloc then (hash, [])
  else
    let dat_entry :=
      {| ip := ip4; mac_addr := mac; last_update := jiffies; refcount := 2 |} in
    match batadv_hash_add hash ip4 dat_entry with
    | (0, hash') =>
        (* the entry is linked: the reference of the caller goes at out *)
        match hash' with
        | Some t' =>
            let h := (dat_index t' ip4, 0%nat) in
            let '(e, released) := batadv_dat_entry_free_ref dat_entry in
            (Some (store_at t' h e), if released then [e] else [])
        | None => (None, [])
        end
    | (_, hash') =>
        (* remove the reference for the hash, then the one of the caller *)
        let '(e, released1) := batadv_dat_entry_free_ref dat_entry in
        let '(e', released2) := batadv_dat_entry_free_ref e in
        (hash', (if released1 then [e] else [])
                  ++ (if released2 then [e'] else []))
    end.

(** The table after the call and the entries handed to [kfree_rcu]. *)
Definition batadv_dat_entry_add (hash : option batadv_hashtable)
    (ip4 mac : Z) (jiffies : Z) (kmalloc : bool)
    : option batadv_hashtable * list batadv_dat_entry :=
  match batadv_dat_entry_hash_find hash ip4 with
  | (Some (h, dat_entry), Some t) =>
      batadv_dat_entry_add_known t h dat_entry mac jiffies
  | (_, hash') => batadv_dat_entry_add_new hash' ip4 mac jiffies kmalloc
  end.

(** What a reader gets from the cache: the entry behind the handle that
    [batadv_dat_entry_hash_find] returns. *)
Definition dat_lookup (hash : option batadv_hashtable) (ip4 : Z)
    : option batadv_dat_entry :=
  match batadv_dat_entry_hash_find hash ip4 with
  | (Some (_, dat_entry), _) => Some dat_entry
  | (None, _) => None
  end.

(** The number of entries linked in the table. *)
Definition entry_count (t : batadv_hashtable) : nat := length (concat t).

(** ** Dissemination *)

(** [NET_XMIT_SUCCESS] of linux/netdevice.h. *)
Definition NET_XMIT_SUCCESS : Z := 0.

(** The collaborators of [batadv_dat_send_data], by the turn [i] of its loop
    in which they are called: the router the originator currently points to
    (NULL when it has none), whether [pskb_copy] returns a buffer, what
    [batadv_unicast_4addr_prepare_skb] answers for the buffer it is handed
    ([false] standing for the NULL of a failed copy), and the status
    [batadv_send_skb_packet] returns. *)
Record collaborators : Type := {
  router : nat -> batadv_orig_node -> option Z;
  pskb_copy : nat -> bool;
  batadv_unicast_4addr_prepare_skb : nat -> bool -> batadv_orig_node -> bool;
  batadv_send_skb_packet : nat -> Z -> Z
}.

(** Modelled from the spec: [batadv_orig_node_get_router] (originator.c)
    resolves the next hop of a node and hands it out with a reference taken,
    or NULL when none is available. *)
Definition batadv_orig_node_get_router (C : collaborators) (i : nat)
    (node : batadv_orig_node) (neigh_refs : refcounts)
    : option Z * refcounts :=
  match router C i node with
  | None => (None, neigh_refs)
  | Some neigh =>
      match atomic_inc_not_zero neigh_refs neigh with
      | Some refs' => (Some neigh, refs')
      | None => (None, neigh_refs)
      end
  end.

(** Modelled from the spec: [batadv_neigh_node_free_ref] (originator.c) gives
    back one reference to a next hop. *)
Definition batadv_neigh_node_free_ref (neigh_refs : refcounts) (neigh : Z)
    : refcounts :=
  alter (fun r => r - 1) neigh neigh_refs.

(** The calls [batadv_dat_send_data] makes to its collaborators. *)
Inductive send_event : Type :=
| GetRouter (i : nat) (node : Z) (neigh : option Z)
| Copy (i : nat) (copied : bool)
| Prepare (i : nat) (prepared : bool)
| Transmit (i : nat) (neigh : Z) (send_status : Z).

Record send_state : Type := {
  ret : bool;
  orig_refs : refcounts;
  neigh_refs : refcounts;
  events : list send_event
}.

(** One turn of the loop of [batadv_dat_send_data], for [cand[i]]. *)
Definition send_to_candidate (C : collaborators) (i : nat)
    (cand_i : batadv_dat_candidate) (st : send_state) : send_state :=
  match type cand_i with
  | BATADV_DAT_CANDIDATE_NOT_FOUND => st
  | BATADV_DAT_CANDIDATE_ORIG =>
      let node := orig_node cand_i in
      match batadv_orig_node_get_router C i node (neigh_refs st) with
      | (None, nrefs) =>
          (* goto free_orig *)
          {| ret := ret st;
             orig_refs := batadv_orig_node_free_ref (orig_refs st) (node_ptr node);
             neigh_refs := nrefs;
             events := events st ++ [GetRouter i (node_ptr node) None] |}
      | (Some neigh_node, nrefs) =>
          let tmp_skb := pskb_copy C i in
          if negb (batadv_unicast_4addr_prepare_skb C i tmp_skb node) then
            (* kfree_skb(tmp_skb); goto free_neigh *)
            {| ret := ret st;
               orig_refs :=
                 batadv_orig_node_free_ref (orig_refs st) (node_ptr node);
               neigh_refs := batadv_neigh_node_free_ref nrefs neigh_node;
               events := events st ++
                 [GetRouter i (node_ptr node) (Some neigh_node);
                  Copy i tmp_skb; Prepare i false] |}
          else
            let send_status := batadv_send_skb_packet C i neigh_node in
            {| ret := if send_status =? NET_XMIT_SUCCESS then true else ret st;
               orig_refs :=
                 batadv_orig_node_free_ref (orig_refs st) (node_ptr node);
               neigh_refs := batadv_neigh_node_free_ref nrefs neigh_node;
               events := events st ++
                 [GetRouter i (node_ptr node) (Some neigh_node);
                  Copy i tmp_skb; Prepare i true;
                  Transmit i neigh_node send_status] |}
      end
  end.

(** [for (i = 0; i < BATADV_DAT_CANDIDATES_NUM; i++)], from turn [i] on over
    the slots that are left. *)
Fixpoint send_loop (C : collaborators) (i : nat)
    (cand : list batadv_dat_candidate) (st : send_state) : send_state :=
  match cand with
  | [] => st
  | cand_i :: rest => send_loop C (S i) rest (send_to_candidate C i cand_i st)
  end.

(** [orig_hash] and [kmalloc] are as for [batadv_dat_select_candidates]; the
    payload and the packet subtype only travel to the collaborators. *)
Definition batadv_dat_send_data (C : collaborators)
    (orig_hash : option (list (list batadv_orig_node)))
    (kmalloc : option (nat -> batadv_dat_candidate)) (ip4 : Z)
    (orig_refs0 neigh_refs0 : refcounts) : result send_state :=
  do selected <- batadv_dat_select_candidates orig_hash kmalloc ip4 orig_refs0;
  let st0 := {| ret := false; orig_refs := selected.2;
                neigh_refs := neigh_refs0; events := [] |} in
  match selected.1 with
  | None => Ok st0   (* goto out *)
  | Some cand => Ok (send_loop C 0 cand st0)
  end.

(** ** The claims as the specification words them *)

(** The ring of the specification: [RING_SIZE] is the full 32-bit unsigned
    space, the key is the mixed lookup key reduced modulo [RING_SIZE], and
    the distance of a node at position [p] is
    [(RING_SIZE - p + ring_key) mod RING_SIZE]. *)
Definition spec_RING_SIZE : Z := 2 ^ 32.

Definition spec_ring_key (lookup_key : Z) : Z :=
  hash_dat_mix (be32_bytes lookup_key) mod spec_RING_SIZE.

Definition spec_distance (p ring_key : Z) : Z :=
  (spec_RING_SIZE - p + ring_key) mod spec_RING_SIZE.

(** ** Invariants used by the proofs *)

(** The references the scan of one round holds on [x]: one when [x] is the
    current round maximum. *)
Definition held_by (o : option batadv_orig_node) (x : Z) : Z :=
  match o with
  | Some m => if node_ptr m =? x then 1 else 0
  | None => 0
  end.

(** The references a candidate array holds on [x]: one per found slot that
    points to [x]. *)
Fixpoint held (cands : list batadv_dat_candidate) (x : Z) : Z :=
  match cands with
  | [] => 0
  | c :: rest =>
      (if is_found c && (node_ptr (orig_node c) =? x) then 1 else 0)
      + held rest x
  end.

(** No slot of [cands] points to the node [n]. *)
Definition fresh_for (cands : list batadv_dat_candidate)
    (n : batadv_orig_node) : Prop :=
  Forall (fun c => node_ptr (orig_node c) <> node_ptr n) cands.

(** What holds of the locals of [batadv_choose_next_candidate] during the
    scan of round [select]. *)
Definition scan_inv (cands : list batadv_dat_candidate) (select : nat)
    (ip_key last_max : Z) (refs0 : refcounts) (st : scan_state) : Prop :=
  0 <= max st <= last_max /\
  match max_orig_node st with
  | Some m => max st = dat_distance ip_key m /\ fresh_for (take select cands) m
  | None => max st = 0
  end /\
  forall x, refs st x = refs0 x + held_by (max_orig_node st) x.

(** The found slots among the first [select] ones point to distinct nodes, in
    non-increasing order of distance. *)
Definition slots_ordered (ip_key : Z) (select : nat)
    (cands : list batadv_dat_candidate) : Prop :=
  forall (i j : nat) (ci cj : batadv_dat_candidate),
    (i < j)%nat -> (j < select)%nat ->
    cands !! i = Some ci -> cands !! j = Some cj ->
    is_found ci = true -> is_found cj = true ->
    node_ptr (orig_node ci) <> node_ptr (orig_node cj) /\
    dat_distance ip_key (orig_node cj) <= dat_distance ip_key (orig_node ci).

(** What holds between the rounds of [batadv_dat_select_candidates], before
    round [select]. *)
Definition round_inv (ip_key : Z) (refs0 : refcounts) (select : nat)
    (s : select_state) : Prop :=
  0 <= sel_last_max s <= BATADV_DAT_ADDR_MAX /\
  (forall (i : nat) (c : batadv_dat_candidate),
      (i < select)%nat -> sel_cands s !! i = Some c -> is_found c = true ->
      sel_last_max s <= dat_distance ip_key (orig_node c)) /\
  slots_ordered ip_key select (sel_cands s) /\
  forall x, sel_refs s x = refs0 x + held (take select (sel_cands s)) x.

(** No node of the registry lies at distance 0 of the key. *)
Definition no_zero_distance (ip_key : Z)
    (table : list (list batadv_orig_node)) : Prop :=
  Forall (Forall (fun n => dat_distance ip_key n <> 0)) table.

(** The hardware address stored in slot [i] of the array a selection
    returned, when the slot is found. *)
Definition found_orig
    (r : result (option (list batadv_dat_candidate) * refcounts)) (i : nat)
    : option Z :=
  match r with
  | Ok (Some cands, _) =>
      match cands !! i with
      | Some c => if is_found c then Some (orig (orig_node c)) else None
      | None => None
      end
  | _ => None
  end.

(** Fresh memory whose slots all read as not found, holding the node at
    address 0. *)
Definition blank_memory (i : nat) : batadv_dat_candidate :=
  {| type := BATADV_DAT_CANDIDATE_NOT_FOUND;
     orig_node := {| node_ptr := 0; orig := 0; dat_addr := 0 |} |}.

(** The candidates for which a send asked for a next hop, in the order of
    the calls: the turn of the loop and the node. *)
Fixpoint attempts (evs : list send_event) : list (nat * Z) :=
  match evs with
  | [] => []
  | GetRouter i node _ :: rest => (i, node) :: attempts rest
  | _ :: rest => attempts rest
  end.

(** The found slots of a candidate array whose first slot has index [i]. *)
Fixpoint found_slots (i : nat) (cand : list batadv_dat_candidate)
    : list (nat * Z) :=
  match cand with
  | [] => []
  | c :: rest =>
      if is_found c then (i, node_ptr (orig_node c)) :: found_slots (S i) rest
      else found_slots (S i) rest
  end.

(** The transport accepted some transmission of the log. *)
Definition some_accepted (evs : list send_event) : Prop :=
  exists i neigh, In (Transmit i neigh NET_XMIT_SUCCESS) evs.

(** A transport for the examples: every node has the next hop at address
    [100 + node_ptr], copies and preparations succeed, and the transport
    accepts the packet of turn 0 only. *)
Definition example_collaborators : collaborators :=
  {| router := fun _ node => Some (100 + node_ptr node);
     pskb_copy := fun _ => true;
     batadv_unicast_4addr_prepare_skb := fun _ _ _ => true;
     batadv_send_skb_packet :=
       fun i _ => match i with O => NET_XMIT_SUCCESS | S _ => 1 end |}.

(** A registry for the examples: three nodes in two buckets, at the ring
    positions 10, 200 and 4000000000. *)
Definition example_registry : list (list batadv_orig_node) :=
  [[ {| node_ptr := 1; orig := 1; dat_addr := 10 |};
     {| node_ptr := 2; orig := 2; dat_addr := 200 |} ];
   [ {| node_ptr := 3; orig := 3; dat_addr := 4000000000 |} ]].

(** ** Well-formed tables *)

(** Every entry linked in the table holds the reference of the table. *)
Definition table_live (t : batadv_hashtable) : Prop :=
  Forall (Forall (fun e => 0 < refcount e)) t.

(** The entries the loop of [batadv_dat_entry_hash_find] passes over: those
    with another address and those whose counter already reached zero. *)
Definition skipped (ip4 : Z) (e : batadv_dat_entry) : Prop :=
  ip e <> ip4 \/ refcount e = 0.

(** The entry as a reader receives it, with the reference of the reader. *)
Definition acquired (e : batadv_dat_entry) : batadv_dat_entry :=
  set_refcount e (refcount e + 1).

(** Whether a purge with the helper [to_purge] deletes the entry. *)
Definition purged (to_purge : option (batadv_dat_entry -> bool))
    (e : batadv_dat_entry) : bool :=
  match to_purge with
  | Some f => f e
  | None => true
  end.

(** [e0] is the entry a lookup of [ip4] finds: it lies at place [i] of the
    bucket [head] the address hashes to, has the address and a counter that
    is not zero, and the loop passes over everything before it. *)
Definition first_live (t : batadv_hashtable) (ip4 : Z)
    (head : list batadv_dat_entry) (i : nat) (e0 : batadv_dat_entry) : Prop :=
  t !! dat_index t ip4 = Some head /\ head !! i = Some e0 /\
  ip e0 = ip4 /\ refcount e0 <> 0 /\ Forall (skipped ip4) (take i head).

(** The entry [batadv_dat_entry_add] leaves for an address that was known:
    the entry found, with the new hardware address and timestamp. *)
Definition updated (e0 : batadv_dat_entry) (mac jiffies : Z)
    : batadv_dat_entry :=
  {| ip := ip e0; mac_addr := mac; last_update := jiffies;
     refcount := refcount e0 |}.

(** ** The life of the cache *)

(** [bat_priv->dat]: the table ([None] when NULL) and the delayed work of
    the purge, [Some d] when it is queued to run in [d] milliseconds. *)
Record batadv_priv_dat : Type := {
  hash : option batadv_hashtable;
  work : option Z
}.

(** [ENOMEM] of the kernel's errno-base.h. *)
Definition ENOMEM : Z := 12.

(** Modelled from the spec: [batadv_hash_new] (hash.c) builds a table of
    [size] empty buckets, or returns NULL when memory is exhausted. *)
Definition batadv_hash_new (size : nat) (kmalloc : bool)
    : option batadv_hashtable :=
  if kmalloc then Some (replicate size []) else None.

(** [queue_delayed_work] with a delay of 10000 milliseconds. *)
Definition batadv_dat_start_timer (dat : batadv_priv_dat) : batadv_priv_dat :=
  {| hash := hash dat; work := Some 10000 |}.

(** The return value and the state after the call; [kmalloc] tells whether
    the allocation of the table succeeds. *)
Definition batadv_dat_init (dat : batadv_priv_dat) (kmalloc : bool)
    : Z * batadv_priv_dat :=
  match hash dat with
  | Some _ => (0, dat)
  | None =>
      match batadv_hash_new 1024 kmalloc with
      | None => (- ENOMEM, {| hash := None; work := work dat |})
      | Some t =>
          (0, batadv_dat_start_timer {| hash := Some t; work := work dat |})
      end
  end.

(** The worker [batadv_dat_purge] with the timer it restarts: the state
    after the run and the entries handed to [kfree_rcu]. *)
Definition batadv_dat_purge_work (timeout jiffies : Z) (dat : batadv_priv_dat)
    : batadv_priv_dat * list batadv_dat_entry :=
  let '(hash', freed) := batadv_dat_purge timeout jiffies (hash dat) in
  (batadv_dat_start_timer {| hash := hash'; work := work dat |}, freed).

(** Modelled from the spec: [batadv_hash_destroy] (hash.c) releases the
    memory of the table.  The sources do not show what it does when it is
    handed NULL; the properties of the teardown below are stated for a state
    that has a table. *)
Definition batadv_dat_hash_free (dat : batadv_priv_dat)
    : batadv_priv_dat * list batadv_dat_entry :=
  let '(_, freed) := __batadv_dat_purge (hash dat) None in
  ({| hash := None; work := work dat |}, freed).

(** [cancel_delayed_work_sync] takes the work off the queue. *)
Definition batadv_dat_free (dat : batadv_priv_dat)
    : batadv_priv_dat * list batadv_dat_entry :=
  batadv_dat_hash_free {| hash := hash dat; work := None |}.

(** [batadv_dat_entry_free_ref] on the entry behind a handle: the table with
    the counter lowered, and the entry when it was handed to [kfree_rcu]. *)
Definition free_ref_at (t : batadv_hashtable) (h : dat_handle)
    : batadv_hashtable * list batadv_dat_entry :=
  match entry_at t h with
  | Some dat_entry =>
      let '(e, released) := batadv_dat_entry_free_ref dat_entry in
      (store_at t h e, if released then [e] else [])
  | None => (t, [])
  end.

(** ** Invariants of the cache *)

(** Every entry lies in the bucket its address hashes to. *)
Definition well_placed (t : batadv_hashtable) : Prop :=
  forall (i : nat) head e,
    t !! i = Some head -> In e head -> dat_index t (ip e) = i.

(** No bucket holds two entries with the same address. *)
Definition unique_keys (t : batadv_hashtable) : Prop :=
  Forall (fun head => List.NoDup (map ip head)) t.

(** The table as the operations of this file keep it: it has buckets, every
    linked entry holds the reference of the table and lies in the bucket of
    its address, and no address is linked twice. *)
Definition dat_wf (t : batadv_hashtable) : Prop :=
  t <> [] /\ table_live t /\ well_placed t /\ unique_keys t.

(** The entry a lookup in one bucket hands out. *)
Definition bucket_lookup (ip4 : Z) (head : list batadv_dat_entry)
    : option batadv_dat_entry :=
  match (hash_find_bucket ip4 head).1 with
  | Some (_, e) => Some e
  | None => None
  end.

(** The entry [batadv_dat_entry_add] links for an address that was not
    known, once the reference of the caller is gone. *)
Definition fresh_entry (ip4 mac jiffies : Z) : batadv_dat_entry :=
  {| ip := ip4; mac_addr := mac; last_update := jiffies; refcount := 1 |}.

(** ** More invariants of the selection *)

(** The round maximum, once there is one, is a node of the registry at a
    distance above 0. *)
Definition scan_inv_more (nodes : list batadv_orig_node) (st : scan_state)
    : Prop :=
  match max_orig_node st with
  | Some m => 0 < max st /\ In m nodes
  | None => True
  end.

(** The scan has seen a node at least as far as [n] and holds a round
    maximum. *)
Definition covers (ip_key : Z) (st : scan_state) (n : batadv_orig_node)
    : Prop :=
  max_orig_node st <> None /\ dat_distance ip_key n <= max st.

(** What holds between the rounds besides [round_inv]: the found slots hold
    nodes of the registry at a distance above 0; every node of the registry
    with a positive counter that no slot points to lies within [last_max];
    once a slot was left not found, [last_max] is 0 and every later slot
    is left not found; and after the first round slot 0 is found and lies at
    least as far as every node of the registry with a positive counter. *)
Definition round_inv_more (nodes : list batadv_orig_node) (ip_key : Z)
    (refs0 : refcounts) (select : nat) (s : select_state) : Prop :=
  (forall (i : nat) (c : batadv_dat_candidate),
      (i < select)%nat -> sel_cands s !! i = Some c -> is_found c = true ->
      In (orig_node c) nodes /\ 0 < dat_distance ip_key (orig_node c)) /\
  (forall n,
      In n nodes -> 0 < refs0 (node_ptr n) ->
      fresh_for (take select (sel_cands s)) n ->
      dat_distance ip_key n <= sel_last_max s) /\
  (forall (i : nat) (c : batadv_dat_candidate),
      (i < select)%nat -> sel_cands s !! i = Some c -> is_found c = false ->
      sel_last_max s = 0) /\
  (forall (i j : nat) (ci cj : batadv_dat_candidate),
      (i < j)%nat -> (j < select)%nat ->
      sel_cands s !! i = Some ci -> sel_cands s !! j = Some cj ->
      is_found ci = false -> is_found cj = false) /\
  (forall n,
      (0 < select)%nat -> In n nodes -> 0 < refs0 (node_ptr n) ->
      exists c, sel_cands s !! 0%nat = Some c /\ is_found c = true /\
                dat_distance ip_key n <= dat_distance ip_key (orig_node c)).

(** The runs of the periodic worker, one per reading of the clock in
    [clock], in order: every run re-queues the next one. *)
Fixpoint purge_runs (timeout : Z) (clock : list Z) (dat : batadv_priv_dat)
    : batadv_priv_dat :=
  match clock with
  | [] => dat
  | jiffies :: later =>
      purge_runs timeout later (batadv_dat_purge_work timeout jiffies dat).1
  end.

(** * Properties *)

(** ** Arithmetic of the ring *)

Lemma u32_range (z : Z) : 0 <= u32 z < 2 ^ 32.
Proof. unfold u32. apply Z.mod_pos_bound. lia. Qed.

Lemma u32_small (z : Z) : 0 <= z < 2 ^ 32 -> u32 z = z.
Proof. intros H. unfold u32. now apply Z.mod_small. Qed.

Lemma hash_dat_mix_range (key : list Z) : 0 <= hash_dat_mix key < 2 ^ 32.
Proof. unfold hash_dat_mix. apply u32_range. Qed.

Lemma dat_distance_range (ip_key : Z) (n : batadv_orig_node) :
  0 <= dat_distance ip_key n <= BATADV_DAT_ADDR_MAX.
Proof.
  unfold dat_distance, BATADV_DAT_ADDR_MAX.
  pose proof (u32_range (2 ^ 32 - 1 - dat_addr n + ip_key)). lia.
Qed.

Lemma dat_ip_key_eq (ip_dst : Z) :
  dat_ip_key ip_dst = hash_dat_mix (be32_bytes ip_dst) mod BATADV_DAT_ADDR_MAX.
Proof.
  unfold dat_ip_key, batadv_hash_dat. apply u32_small.
  pose proof (Z.mod_pos_bound (hash_dat_mix (be32_bytes ip_dst))
                BATADV_DAT_ADDR_MAX).
  unfold BATADV_DAT_ADDR_MAX in *. lia.
Qed.

(** C1, as amended.  For every lookup key and every node, the distance the
    selector computes is [(RING_SIZE - 1 - p + ring_key) mod RING_SIZE] with
    [ring_key = mix(lookup_key) mod (RING_SIZE - 1)], where [RING_SIZE] is the
    full 32-bit space: the constant added and the modulus of the key are the
    largest address [BATADV_DAT_ADDR_MAX = RING_SIZE - 1], and only the wrap
    of the unsigned arithmetic is modulo [RING_SIZE]. *)
Theorem dat_distance_uses_addr_max (lookup_key : Z) (node : batadv_orig_node) :
  BATADV_DAT_ADDR_MAX = spec_RING_SIZE - 1 /\
  dat_ip_key lookup_key
    = hash_dat_mix (be32_bytes lookup_key) mod (spec_RING_SIZE - 1) /\
  0 <= dat_ip_key lookup_key < spec_RING_SIZE - 1 /\
  dat_distance (dat_ip_key lookup_key) node
    = (spec_RING_SIZE - 1 - dat_addr node
       + hash_dat_mix (be32_bytes lookup_key) mod (spec_RING_SIZE - 1))
      mod spec_RING_SIZE.
Proof.
  assert (E : BATADV_DAT_ADDR_MAX = spec_RING_SIZE - 1) by reflexivity.
  split; [exact E|].
  rewrite dat_ip_key_eq, E.
  split; [reflexivity|].
  split.
  - apply Z.mod_pos_bound. unfold spec_RING_SIZE. lia.
  - unfold dat_distance, u32. rewrite E. reflexivity.
Qed.

(** C1, as the specification words it, fails: for the key 0 (which mixes to 0)
    and a node at ring position 0 the selector computes the distance
    [2^32 - 1], where the formula of the specification gives 0. *)
Lemma dat_distance_is_not_spec_distance :
  dat_distance (dat_ip_key 0) {| node_ptr := 1; orig := 1; dat_addr := 0 |}
  <> spec_distance 0 (spec_ring_key 0).
Proof. vm_compute. discriminate. Qed.

(** Unless the key mixes to all ones, the distance of the code is the
    distance of the specification minus one, modulo the ring width. *)
Lemma dat_distance_off_by_one (lookup_key : Z) (node : batadv_orig_node) :
  hash_dat_mix (be32_bytes lookup_key) <> 2 ^ 32 - 1 ->
  dat_distance (dat_ip_key lookup_key) node
  = (spec_distance (dat_addr node) (spec_ring_key lookup_key) - 1)
    mod spec_RING_SIZE.
Proof.
  intros Hmix.
  pose proof (hash_dat_mix_range (be32_bytes lookup_key)) as Hr.
  rewrite dat_ip_key_eq.
  unfold dat_distance, u32, spec_distance, spec_ring_key, spec_RING_SIZE,
    BATADV_DAT_ADDR_MAX.
  rewrite !(Z.mod_small (hash_dat_mix (be32_bytes lookup_key))) by lia.
  rewrite Zminus_mod_idemp_l. f_equal. lia.
Qed.

(** ** The scan of one round *)

(** Case analysis on every integer comparison of the goal. *)
Ltac case_eqb :=
  repeat match goal with
         | |- context [?a =? ?b] => destruct (Z.eqb_spec a b)
         end.

Lemma existsb_false_Forall {A : Type} (f : A -> bool) (l : list A) :
  existsb f l = false -> Forall (fun a => f a = false) l.
Proof.
  induction l as [|a l IH]; simpl; intros H; constructor.
  - now destruct (f a).
  - apply IH. destruct (f a); [discriminate | exact H].
Qed.

Lemma eligible_true (res : list batadv_dat_candidate) (select : nat)
    (tmp_max mx last_max : Z) (candidate : batadv_orig_node)
    (mo : option batadv_orig_node) :
  batadv_is_orig_node_eligible res select tmp_max mx last_max candidate mo
    = Ok true ->
  fresh_for (take select res) candidate /\ tmp_max <= last_max /\ mx <= tmp_max.
Proof.
  unfold batadv_is_orig_node_eligible, fresh_for.
  destruct (existsb _ _) eqn:Ex; [discriminate|].
  destruct (tmp_max >? last_max) eqn:G; [discriminate|].
  destruct (tmp_max <? mx) eqn:L; [discriminate|].
  intros _. split; [|lia].
  apply existsb_false_Forall in Ex.
  eapply List.Forall_impl; [|exact Ex]. simpl. intros c Hc. lia.
Qed.

(** The eligibility check reads through the NULL round maximum exactly when
    a node that was not selected before lies at distance 0 while no node has
    been accepted in the round: with no such node the check answers. *)
Lemma eligible_answers (res : list batadv_dat_candidate) (select : nat)
    (tmp_max last_max : Z) (candidate : batadv_orig_node)
    (st : scan_state) :
  (max_orig_node st = None -> max st = 0) ->
  tmp_max <> 0 ->
  exists b,
    batadv_is_orig_node_eligible res select tmp_max (max st) last_max
      candidate (max_orig_node st) = Ok b.
Proof.
  intros Hnone Hnz. unfold batadv_is_orig_node_eligible.
  destruct (existsb _ _); [eauto|].
  destruct (tmp_max >? last_max); [eauto|].
  destruct (tmp_max <? max st); [eauto|].
  destruct (Z.eqb_spec tmp_max (max st)) as [E|N]; [|eauto].
  destruct (max_orig_node st) as [m|].
  - destruct (_ >? 0); eauto.
  - specialize (Hnone eq_refl). congruence.
Qed.

(** A counter store after one counter was changed. *)
Lemma alter_apply (f : Z -> Z) (p : Z) (refs : refcounts) (x : Z) :
  alter f p refs x = if p =? x then f (refs x) else refs x.
Proof.
  destruct (Z.eqb_spec p x) as [->|N].
  - apply fn_lookup_alter.
  - now apply fn_lookup_alter_ne.
Qed.

Section ScanRound.

(** The round: the candidate array as the round finds it, the index of
    the slot to fill, the key, the bound of the round before, and the
    counters at the start of the scan. *)
Variables (cands : list batadv_dat_candidate) (select : nat).
Variables (ip_key last_max : Z) (refs0 : refcounts).

Local Abbreviation inv := (scan_inv cands select ip_key last_max refs0).

Lemma scan_node_inv (st st' : scan_state) (node : batadv_orig_node) :
  inv st ->
  scan_node cands select ip_key last_max st node = Ok st' ->
  inv st'.
Proof.
  intros Inv. unfold scan_node.
  destruct (batadv_is_orig_node_eligible _ _ _ _ _ _ _) as [[|]|] eqn:El;
    simpl; try discriminate.
  2:{ intros [= <-]. exact Inv. }
  unfold atomic_inc_not_zero.
  destruct (refs st (node_ptr node) =? 0) eqn:Z0.
  { intros [= <-]. exact Inv. }
  intros [= <-].
  apply eligible_true in El as (Fr & Hle & Hge).
  destruct Inv as (Hmax & Hm & Hrefs).
  pose proof (dat_distance_range ip_key node) as Hd.
  unfold scan_inv; simpl. split; [lia|]. split; [now split|].
  intros x. unfold batadv_orig_node_free_ref.
  destruct (max_orig_node st) as [m|] eqn:Em; simpl in *;
    rewrite !alter_apply, Hrefs; case_eqb; subst; try lia; congruence.
Qed.

Lemma scan_node_answers (st : scan_state) (node : batadv_orig_node) :
  inv st ->
  dat_distance ip_key node <> 0 ->
  exists st', scan_node cands select ip_key last_max st node = Ok st'.
Proof.
  intros (_ & Hm & _) Hnz. unfold scan_node.
  destruct (eligible_answers cands select (dat_distance ip_key node)
              last_max node st) as [b ->]; [|exact Hnz|].
  { intros E. now rewrite E in Hm. }
  simpl. destruct b; simpl; [|eauto].
  destruct (atomic_inc_not_zero _ _); eauto.
Qed.

Lemma scan_bucket_inv (head : list batadv_orig_node) :
  forall st st',
    inv st ->
    scan_bucket cands select ip_key last_max head st = Ok st' ->
    inv st'.
Proof.
  induction head as [|node rest IH]; simpl; intros st st' Inv H.
  - injection H as <-. exact Inv.
  - destruct (scan_node cands select ip_key last_max st node)
      as [st1|] eqn:E; simpl in H; [|discriminate].
    eapply IH; [|exact H]. eapply scan_node_inv; eassumption.
Qed.

Lemma scan_bucket_answers (head : list batadv_orig_node) :
  Forall (fun n => dat_distance ip_key n <> 0) head ->
  forall st,
    inv st ->
    exists st', scan_bucket cands select ip_key last_max head st = Ok st'.
Proof.
  induction 1 as [|node rest Hnode _ IH]; simpl; intros st Inv; [eauto|].
  destruct (scan_node_answers _ _ Inv Hnode) as [st1 E].
  rewrite E. simpl. apply IH. eapply scan_node_inv; eassumption.
Qed.

Lemma scan_table_inv (table : list (list batadv_orig_node)) :
  forall st st',
    inv st ->
    scan_table cands select ip_key last_max table st = Ok st' ->
    inv st'.
Proof.
  induction table as [|head rest IH]; simpl; intros st st' Inv H.
  - injection H as <-. exact Inv.
  - destruct (scan_bucket cands select ip_key last_max head st)
      as [st1|] eqn:E; simpl in H; [|discriminate].
    eapply IH; [|exact H]. eapply scan_bucket_inv; eassumption.
Qed.

Lemma scan_table_answers (table : list (list batadv_orig_node)) :
  no_zero_distance ip_key table ->
  forall st,
    inv st ->
    exists st', scan_table cands select ip_key last_max table st = Ok st'.
Proof.
  induction 1 as [|head rest Hhead _ IH]; simpl; intros st Inv; [eauto|].
  destruct (scan_bucket_answers _ Hhead _ Inv) as [st1 E].
  rewrite E. simpl. apply IH. eapply scan_bucket_inv; eassumption.
Qed.

End ScanRound.

(** ** The rounds of the selection *)

Lemma held_app (l1 l2 : list batadv_dat_candidate) (x : Z) :
  held (l1 ++ l2) x = held l1 x + held l2 x.
Proof. induction l1 as [|c l1 IH]; simpl; [reflexivity | rewrite IH; lia]. Qed.

Lemma set_type_length (cands : list batadv_dat_candidate) (select : nat)
    (t : batadv_dat_candidate_type) :
  length (set_type cands select t) = length cands.
Proof.
  unfold set_type. destruct (cands !! select); [apply length_insert | reflexivity].
Qed.

Lemma set_type_lookup_ne (cands : list batadv_dat_candidate) (select i : nat)
    (t : batadv_dat_candidate_type) :
  i <> select -> set_type cands select t !! i = cands !! i.
Proof.
  intros N. unfold set_type. destruct (cands !! select); [|reflexivity].
  apply list_lookup_insert_ne. congruence.
Qed.

Lemma set_type_lookup_eq (cands : list batadv_dat_candidate) (select : nat)
    (t : batadv_dat_candidate_type) (c : batadv_dat_candidate) :
  set_type cands select t !! select = Some c -> type c = t.
Proof.
  unfold set_type. destruct (cands !! select) as [c0|] eqn:E.
  - rewrite list_lookup_insert_eq by (eapply lookup_lt_Some; exact E).
    intros [= <-]. reflexivity.
  - congruence.
Qed.

Lemma set_type_take (cands : list batadv_dat_candidate) (select : nat)
    (t : batadv_dat_candidate_type) :
  take select (set_type cands select t) = take select cands.
Proof.
  unfold set_type. destruct (cands !! select); [|reflexivity].
  now apply take_insert_ge.
Qed.

(** One round keeps the invariant of the selection, keeps the array length
    and does not raise [last_max]. *)
Lemma choose_next_candidate_inv (orig_hash : list (list batadv_orig_node))
    (ip_key : Z) (refs0 : refcounts) (select : nat) (s s' : select_state) :
  (select < length (sel_cands s))%nat ->
  round_inv ip_key refs0 select s ->
  batadv_choose_next_candidate orig_hash select ip_key s = Ok s' ->
  round_inv ip_key refs0 (S select) s' /\
  length (sel_cands s') = length (sel_cands s).
Proof.
  intros Hlen (Hlm & Hfar & Hord & Hrefs). unfold batadv_choose_next_candidate.
  set (cands0 := set_type (sel_cands s) select BATADV_DAT_CANDIDATE_NOT_FOUND).
  destruct (scan_table _ _ _ _ _ _) as [st|] eqn:Scan; simpl; [|discriminate].
  intros [= <-].
  assert (Inv0 : scan_inv cands0 select ip_key (sel_last_max s) (sel_refs s)
            {| max := 0; max_orig_node := None; refs := sel_refs s |}).
  { repeat split; simpl; try lia. }
  pose proof (scan_table_inv _ _ _ _ _ _ _ _ Inv0 Scan) as (Hmax & Hm & Hst).
  assert (Len0 : length cands0 = length (sel_cands s))
    by apply set_type_length.
  assert (Take0 : take select cands0 = take select (sel_cands s))
    by apply set_type_take.
  assert (Old0 : forall i : nat, (i < select)%nat ->
            cands0 !! i = sel_cands s !! i).
  { intros i Hi. apply set_type_lookup_ne. lia. }
  destruct (lookup_lt_is_Some_2 cands0 select) as [c0 Hc0]; [lia|].
  assert (Nf0 : is_found c0 = false).
  { unfold is_found. now rewrite (set_type_lookup_eq _ _ _ _ Hc0). }
  destruct (max_orig_node st) as [m|] eqn:Em; simpl.
  - destruct Hm as (Hdist & Hfresh).
    set (cm := {| type := BATADV_DAT_CANDIDATE_ORIG; orig_node := m |}).
    assert (Old : forall i : nat, (i < select)%nat ->
              <[select := cm]> cands0 !! i = sel_cands s !! i).
    { intros i Hi. rewrite list_lookup_insert_ne by lia. now apply Old0. }
    assert (New : <[select := cm]> cands0 !! select = Some cm)
      by (apply list_lookup_insert_eq; lia).
    split; [|now rewrite length_insert].
    unfold round_inv; simpl. split; [lia|]. split; [|split].
    + intros i c Hi Hc Fc.
      destruct (decide (i = select)) as [->|Ni].
      * rewrite New in Hc. injection Hc as <-. simpl. lia.
      * rewrite Old in Hc by lia.
        specialize (Hfar i c ltac:(lia) Hc Fc). lia.
    + intros i j ci cj Hij Hj Hi Hcj Fi Fj.
      rewrite Old in Hi by lia.
      destruct (decide (j = select)) as [->|Nj].
      * rewrite New in Hcj. injection Hcj as <-. simpl.
        split.
        -- unfold fresh_for in Hfresh. rewrite Take0 in Hfresh.
           rewrite Forall_lookup in Hfresh. apply (Hfresh i).
           now rewrite lookup_take_lt.
        -- specialize (Hfar i ci ltac:(lia) Hi Fi). lia.
      * rewrite Old in Hcj by lia.
        apply (Hord i j ci cj); [exact Hij | lia | exact Hi | exact Hcj
                                | exact Fi | exact Fj].
    + intros x. rewrite Hst, Hrefs.
      rewrite (take_S_r _ _ _ New), take_insert_ge, Take0 by lia.
      rewrite held_app. simpl. lia.
  - split; [|exact Len0].
    unfold round_inv; simpl. split; [unfold BATADV_DAT_ADDR_MAX; lia|].
    split; [|split].
    + intros i c _ _ _. pose proof (dat_distance_range ip_key (orig_node c)). lia.
    + intros i j ci cj Hij Hj Hi Hcj Fi Fj.
      rewrite Old0 in Hi by lia.
      destruct (decide (j = select)) as [->|Nj].
      * rewrite Hc0 in Hcj. injection Hcj as <-. congruence.
      * rewrite Old0 in Hcj by lia.
        apply (Hord i j ci cj); [exact Hij | lia | exact Hi | exact Hcj
                                | exact Fi | exact Fj].
    + intros x. rewrite Hst, Hrefs.
      rewrite (take_S_r _ _ _ Hc0), Take0, held_app. simpl.
      rewrite Nf0. simpl. lia.
Qed.

Lemma select_rounds_inv (orig_hash : list (list batadv_orig_node))
    (ip_key : Z) (refs0 : refcounts) (rounds : nat) :
  forall (select : nat) (s s' : select_state),
    (select + rounds <= length (sel_cands s))%nat ->
    round_inv ip_key refs0 select s ->
    select_rounds orig_hash ip_key rounds select s = Ok s' ->
    round_inv ip_key refs0 (select + rounds) s' /\
    length (sel_cands s') = length (sel_cands s).
Proof.
  induction rounds as [|rounds IH]; simpl; intros select s s' Hlen Inv H.
  - injection H as <-. now rewrite Nat.add_0_r.
  - destruct (batadv_choose_next_candidate orig_hash select ip_key s)
      as [s1|] eqn:E; simpl in H; [|discriminate].
    assert (Hsel : (select < length (sel_cands s))%nat) by lia.
    destruct (choose_next_candidate_inv _ _ refs0 _ _ _ Hsel Inv E)
      as (Inv1 & L1).
    assert (Hlen1 : (S select + rounds <= length (sel_cands s1))%nat) by lia.
    destruct (IH (S select) s1 s' Hlen1 Inv1 H) as (Inv' & L').
    split; [|congruence].
    now replace (select + S rounds)%nat with (S select + rounds)%nat by lia.
Qed.

Lemma kmalloc_array_length (garbage : nat -> batadv_dat_candidate) (n : nat) :
  length (kmalloc_array garbage n) = n.
Proof. unfold kmalloc_array. now rewrite length_map, length_seq. Qed.

(** The state in which [batadv_dat_select_candidates] enters its loop
    satisfies the invariant. *)
Lemma round_inv_init (ip_key : Z) (refs0 : refcounts)
    (res : list batadv_dat_candidate) :
  round_inv ip_key refs0 0
    {| sel_cands := res; sel_last_max := BATADV_DAT_ADDR_MAX;
       sel_refs := refs0 |}.
Proof.
  unfold round_inv, slots_ordered; simpl.
  split; [unfold BATADV_DAT_ADDR_MAX; lia|].
  split; [intros; lia|]. split; [intros; lia|].
  intros x. lia.
Qed.

(** ** When the selection completes *)

Lemma choose_next_candidate_answers
    (orig_hash : list (list batadv_orig_node)) (ip_key : Z) (select : nat)
    (s : select_state) :
  no_zero_distance ip_key orig_hash ->
  0 <= sel_last_max s ->
  exists s', batadv_choose_next_candidate orig_hash select ip_key s = Ok s'.
Proof.
  intros Hnz Hlm. unfold batadv_choose_next_candidate.
  edestruct (scan_table_answers
               (set_type (sel_cands s) select BATADV_DAT_CANDIDATE_NOT_FOUND)
               select ip_key (sel_last_max s) (sel_refs s) orig_hash Hnz)
    as [st ->].
  - repeat split; simpl; try lia.
  - simpl. eauto.
Qed.

Lemma select_rounds_answers (orig_hash : list (list batadv_orig_node))
    (ip_key : Z) (refs0 : refcounts) (rounds : nat) :
  no_zero_distance ip_key orig_hash ->
  forall (select : nat) (s : select_state),
    (select + rounds <= length (sel_cands s))%nat ->
    round_inv ip_key refs0 select s ->
    exists s', select_rounds orig_hash ip_key rounds select s = Ok s'.
Proof.
  intros Hnz. induction rounds as [|rounds IH]; simpl; intros select s Hlen Inv;
    [eauto|].
  destruct (choose_next_candidate_answers orig_hash ip_key select s Hnz)
    as [s1 E]; [destruct Inv as (? & _); lia|].
  rewrite E. simpl.
  assert (Hsel : (select < length (sel_cands s))%nat) by lia.
  destruct (choose_next_candidate_inv _ _ refs0 _ _ _ Hsel Inv E)
    as (Inv1 & L1).
  apply IH; [lia | exact Inv1].
Qed.

(** A selection that returns an array filled every slot of it: the found
    slots are ordered, and the counters grew by the references the array
    holds. *)
Lemma select_candidates_inv
    (orig_hash : option (list (list batadv_orig_node)))
    (kmalloc : option (nat -> batadv_dat_candidate)) (ip_dst : Z)
    (refs0 : refcounts) (cands : list batadv_dat_candidate)
    (refs' : refcounts) :
  batadv_dat_select_candidates orig_hash kmalloc ip_dst refs0
    = Ok (Some cands, refs') ->
  length cands = BATADV_DAT_CANDIDATES_NUM /\
  slots_ordered (dat_ip_key ip_dst) BATADV_DAT_CANDIDATES_NUM cands /\
  forall x, refs' x = refs0 x + held cands x.
Proof.
  unfold batadv_dat_select_candidates.
  destruct orig_hash as [table|]; [|discriminate].
  destruct kmalloc as [garbage|]; [|discriminate].
  destruct (select_rounds _ _ _ _ _) as [s|] eqn:E; simpl; [|discriminate].
  intros [= <- <-].
  apply select_rounds_inv with (refs0 := refs0) in E as (Inv & Len).
  - cbn [sel_cands] in Len. rewrite kmalloc_array_length in Len.
    change (0 + BATADV_DAT_CANDIDATES_NUM)%nat
      with BATADV_DAT_CANDIDATES_NUM in Inv.
    destruct Inv as (_ & _ & Hord & Hrefs).
    split; [exact Len|]. split; [exact Hord|].
    intros x. rewrite Hrefs, take_ge by lia. reflexivity.
  - cbn [sel_cands]. rewrite kmalloc_array_length. lia.
  - apply round_inv_init.
Qed.

Lemma select_candidates_answers (table : list (list batadv_orig_node))
    (garbage : nat -> batadv_dat_candidate) (ip_dst : Z) (refs0 : refcounts) :
  no_zero_distance (dat_ip_key ip_dst) table ->
  exists cands refs',
    batadv_dat_select_candidates (Some table) (Some garbage) ip_dst refs0
      = Ok (Some cands, refs').
Proof.
  intros Hnz. unfold batadv_dat_select_candidates.
  edestruct (select_rounds_answers table (dat_ip_key ip_dst) refs0
               BATADV_DAT_CANDIDATES_NUM Hnz 0%nat) as [s ->].
  - cbn [sel_cands]. rewrite kmalloc_array_length. lia.
  - apply round_inv_init.
  - simpl. eauto.
Qed.

(** ** The order of the selected candidates *)

(** C3, as amended.  A node is eligible in a round only if its distance does
    not exceed [last_max]; [last_max] starts at [BATADV_DAT_ADDR_MAX], which
    no distance exceeds (and which a node can reach); the selection completes
    on every registry without a node at distance 0 of the key; and whenever
    it completes it returns [BATADV_DAT_CANDIDATES_NUM] slots whose found
    nodes are pairwise distinct and in non-increasing order of distance. *)
Theorem select_candidates_nonincreasing
    (table : list (list batadv_orig_node))
    (garbage : nat -> batadv_dat_candidate) (ip_dst : Z) (refs0 : refcounts) :
  (forall res select tmp_max mx last_max candidate mo,
      batadv_is_orig_node_eligible res select tmp_max mx last_max candidate mo
        = Ok true ->
      tmp_max <= last_max) /\
  (forall node, dat_distance (dat_ip_key ip_dst) node <= BATADV_DAT_ADDR_MAX) /\
  (no_zero_distance (dat_ip_key ip_dst) table ->
   exists cands refs',
     batadv_dat_select_candidates (Some table) (Some garbage) ip_dst refs0
       = Ok (Some cands, refs')) /\
  (forall cands refs',
      batadv_dat_select_candidates (Some table) (Some garbage) ip_dst refs0
        = Ok (Some cands, refs') ->
      length cands = BATADV_DAT_CANDIDATES_NUM /\
      forall (i j : nat) (ci cj : batadv_dat_candidate),
        (i < j)%nat ->
        cands !! i = Some ci -> cands !! j = Some cj ->
        is_found ci = true -> is_found cj = true ->
        node_ptr (orig_node ci) <> node_ptr (orig_node cj) /\
        dat_distance (dat_ip_key ip_dst) (orig_node cj)
          <= dat_distance (dat_ip_key ip_dst) (orig_node ci)).
Proof.
  split; [|split; [|split]].
  - intros res select tmp_max mx last_max candidate mo H.
    apply eligible_true in H. lia.
  - intros node. apply dat_distance_range.
  - apply select_candidates_answers.
  - intros cands refs' H.
    apply select_candidates_inv in H as (Len & Hord & _).
    split; [exact Len|].
    intros i j ci cj Hij Hi Hj Fi Fj.
    apply (Hord i j ci cj); try assumption.
    rewrite <- Len. eapply lookup_lt_Some. exact Hj.
Qed.

(** The theorem at the ring positions 10, 200 and 4000000000 and the key
    address 1: the selection completes, and its found slots are distinct and
    ordered. *)
Lemma select_candidates_nonincreasing_witness :
  exists cands refs',
    batadv_dat_select_candidates (Some example_registry) (Some blank_memory) 1
      (fun _ => 1) = Ok (Some cands, refs') /\
    length cands = BATADV_DAT_CANDIDATES_NUM /\
    forall (i j : nat) (ci cj : batadv_dat_candidate),
      (i < j)%nat ->
      cands !! i = Some ci -> cands !! j = Some cj ->
      is_found ci = true -> is_found cj = true ->
      node_ptr (orig_node ci) <> node_ptr (orig_node cj) /\
      dat_distance (dat_ip_key 1) (orig_node cj)
        <= dat_distance (dat_ip_key 1) (orig_node ci).
Proof.
  destruct (select_candidates_nonincreasing example_registry blank_memory 1
              (fun _ => 1)) as (_ & _ & Hcompletes & Hordered).
  destruct Hcompletes as (cands & refs' & E).
  { repeat constructor; vm_compute; discriminate. }
  exists cands, refs'. split; [exact E|]. apply (Hordered cands refs' E).
Defined.

(** C3, as the specification words it, fails: the initial [last_max] is not
    out of reach.  For the key address 0 a node at ring position 0 lies at
    distance [BATADV_DAT_ADDR_MAX], the initial [last_max], and round 0
    selects it. *)
Lemma initial_last_max_is_reached :
  exists cands refs' c,
    batadv_dat_select_candidates
      (Some [[ {| node_ptr := 1; orig := 1; dat_addr := 0 |} ]])
      (Some blank_memory) 0 (fun _ => 1) = Ok (Some cands, refs') /\
    cands !! 0%nat = Some c /\ is_found c = true /\
    dat_distance (dat_ip_key 0) (orig_node c) = BATADV_DAT_ADDR_MAX.
Proof.
  eexists _, _, _. split; [vm_compute; reflexivity|].
  split; [reflexivity|]. split; reflexivity.
Qed.

(** ** The tie-break and the NULL round maximum *)

(** What the tie-break does: a candidate at the distance of the current
    round maximum is turned down when its hardware address equals that of
    the maximum, and accepted when the addresses differ, whichever is the
    smaller. *)
Lemma tie_break_tests_equality (res : list batadv_dat_candidate)
    (select : nat) (d last_max : Z) (candidate m : batadv_orig_node) :
  fresh_for (take select res) candidate -> d <= last_max ->
  batadv_is_orig_node_eligible res select d d last_max candidate (Some m)
  = Ok (negb (orig candidate =? orig m)).
Proof.
  intros Hfresh Hle. unfold batadv_is_orig_node_eligible.
  replace (existsb _ (take select res)) with false.
  - destruct (Z.gtb_spec d last_max); [lia|].
    rewrite Z.ltb_irrefl, Z.eqb_refl. unfold batadv_compare_eth.
    now destruct (orig candidate =? orig m).
  - symmetry. apply not_true_is_false. intros Ex.
    apply existsb_exists in Ex as (c & Hin & Hc).
    unfold fresh_for in Hfresh. rewrite List.Forall_forall in Hfresh.
    specialize (Hfresh c Hin). lia.
Qed.

(** No helper can serve both uses the file makes of [batadv_compare_eth]:
    one that answers 0 exactly on different addresses, as the guard of
    [batadv_dat_entry_add] needs, never answers above 0 on a larger first
    address, as the tie-break would need. *)
Remark compare_eth_is_no_order (compare_eth : Z -> Z -> Z) :
  (forall a b, compare_eth a b = 0 <-> a <> b) ->
  forall a b, a <> b -> ~ compare_eth a b > 0.
Proof. intros H a b Hab. apply H in Hab. lia. Qed.

(** C2 at its own example.  Two nodes share the ring position 10 and have
    the hardware addresses 0x01 and 0x02.  Scanned in the order 0x01, 0x02,
    round 0 selects 0x02; scanned in the order 0x02, 0x01, it selects 0x01:
    the later node of a tie wins, whatever its address. *)
Theorem tie_break_follows_scan_order :
  let n1 := {| node_ptr := 1; orig := 1; dat_addr := 10 |} in
  let n2 := {| node_ptr := 2; orig := 2; dat_addr := 10 |} in
  found_orig (batadv_dat_select_candidates (Some [[n1; n2]])
                (Some blank_memory) 1 (fun _ => 1)) 0 = Some 2 /\
  found_orig (batadv_dat_select_candidates (Some [[n2; n1]])
                (Some blank_memory) 1 (fun _ => 1)) 0 = Some 1.
Proof. vm_compute. split; reflexivity. Qed.

(** C10 at a failing input.  For the key address 1 the node at ring position
    [dat_ip_key 1 - 1] lies at distance 0.  When it is the first node a round
    scans, the eligibility check reaches the tie-break with the round maximum
    still NULL and reads through it; the selection on the registry that holds
    just this node ends there, whatever the fresh memory and the counters. *)
Theorem tie_break_reads_null_round_maximum :
  let n := {| node_ptr := 1; orig := 1; dat_addr := dat_ip_key 1 - 1 |} in
  dat_distance (dat_ip_key 1) n = 0 /\
  (forall res : list batadv_dat_candidate,
      batadv_is_orig_node_eligible res 0 (dat_distance (dat_ip_key 1) n) 0
        BATADV_DAT_ADDR_MAX n None = Oops) /\
  (forall (garbage : nat -> batadv_dat_candidate) (refs0 : refcounts),
      batadv_dat_select_candidates (Some [[n]]) (Some garbage) 1 refs0
      = Oops).
Proof.
  split; [vm_compute; reflexivity|]. split.
  - intros res. vm_compute. reflexivity.
  - intros garbage refs0. vm_compute. reflexivity.
Qed.

(** ** The dissemination loop *)

Lemma attempts_app (evs1 evs2 : list send_event) :
  attempts (evs1 ++ evs2) = attempts evs1 ++ attempts evs2.
Proof.
  induction evs1 as [|ev evs1 IH]; simpl; [reflexivity|].
  destruct ev; simpl; now rewrite IH.
Qed.

Lemma get_router_refs (C : collaborators) (i : nat) (node : batadv_orig_node)
    (nrefs : refcounts) :
  match batadv_orig_node_get_router C i node nrefs with
  | (Some neigh, nrefs') =>
      forall x, batadv_neigh_node_free_ref nrefs' neigh x = nrefs x
  | (None, nrefs') => nrefs' = nrefs
  end.
Proof.
  unfold batadv_orig_node_get_router, atomic_inc_not_zero.
  destruct (router C i node) as [neigh|]; [|reflexivity].
  destruct (nrefs neigh =? 0); [reflexivity|].
  intros x. unfold batadv_neigh_node_free_ref. rewrite !alter_apply.
  destruct (neigh =? x); lia.
Qed.

(** One turn of the loop: the counters of the next hops are back where they
    were, the node of a found slot lost the reference the array held, the
    turn asked for a next hop exactly when the slot is found, and the result
    is true exactly when it was before or the transport accepted a
    transmission of this turn. *)
Lemma send_to_candidate_spec (C : collaborators) (i : nat)
    (c : batadv_dat_candidate) (st : send_state) :
  let st' := send_to_candidate C i c st in
  (forall x, neigh_refs st' x = neigh_refs st x) /\
  (forall x, orig_refs st' x = orig_refs st x - held [c] x) /\
  (exists evs, events st' = events st ++ evs /\
     attempts evs = found_slots i [c] /\
     (ret st' = true <-> ret st = true \/ some_accepted evs)).
Proof.
  unfold send_to_candidate. cbn [held found_slots]. unfold is_found.
  assert (Hnone : ~ some_accepted []) by (intros (? & ? & []); fail).
  destruct (type c); cbv zeta.
  { split; [reflexivity|]. split; [intros; simpl; lia|].
    exists []. rewrite app_nil_r. simpl. tauto. }
  assert (Horig : forall x,
            batadv_orig_node_free_ref (orig_refs st)
              (node_ptr (orig_node c)) x
            = orig_refs st x
              - ((if true && (node_ptr (orig_node c) =? x) then 1 else 0) + 0)).
  { intros x. unfold batadv_orig_node_free_ref. rewrite alter_apply. simpl.
    destruct (_ =? x); lia. }
  pose proof (get_router_refs C i (orig_node c) (neigh_refs st)) as Hn.
  destruct (batadv_orig_node_get_router C i (orig_node c) (neigh_refs st))
    as [[neigh|] nrefs]; simpl.
  - destruct (batadv_unicast_4addr_prepare_skb C i (pskb_copy C i)
                (orig_node c)); simpl.
    + split; [exact Hn|]. split; [exact Horig|].
      eexists. split; [reflexivity|]. split; [reflexivity|].
      destruct (Z.eqb_spec (batadv_send_skb_packet C i neigh) NET_XMIT_SUCCESS)
        as [E|N].
      * split; [intros _|reflexivity]. right. exists i, neigh.
        rewrite E. simpl. tauto.
      * split; [tauto|]. intros [H|(j & n & H)]; [exact H|].
        simpl in H. destruct H as [H|[H|[H|[H|[]]]]]; try discriminate.
        injection H as _ _ H. contradiction.
    + split; [exact Hn|]. split; [exact Horig|].
      eexists. split; [reflexivity|]. split; [reflexivity|].
      split; [tauto|]. intros [H|(j & n & H)]; [exact H|].
      simpl in H. destruct H as [H|[H|[H|[]]]]; discriminate.
  - subst nrefs. split; [reflexivity|]. split; [exact Horig|].
    eexists. split; [reflexivity|]. split; [reflexivity|].
    split; [tauto|]. intros [H|(j & n & H)]; [exact H|].
    simpl in H. destruct H as [H|[]]; discriminate.
Qed.

Lemma some_accepted_app (evs1 evs2 : list send_event) :
  some_accepted (evs1 ++ evs2) <-> some_accepted evs1 \/ some_accepted evs2.
Proof.
  unfold some_accepted. split.
  - intros (i & n & H). apply in_app_iff in H as [H|H]; eauto.
  - intros [(i & n & H)|(i & n & H)]; exists i, n; apply in_app_iff; tauto.
Qed.

Lemma send_loop_spec (C : collaborators) (cand : list batadv_dat_candidate) :
  forall (i : nat) (st : send_state),
    let st' := send_loop C i cand st in
    (forall x, neigh_refs st' x = neigh_refs st x) /\
    (forall x, orig_refs st' x = orig_refs st x - held cand x) /\
    (exists evs, events st' = events st ++ evs /\
       attempts evs = found_slots i cand /\
       (ret st' = true <-> ret st = true \/ some_accepted evs)).
Proof.
  induction cand as [|c rest IH]; intros i st; simpl.
  - split; [reflexivity|]. split; [intros; lia|].
    exists []. rewrite app_nil_r. split; [reflexivity|]. split; [reflexivity|].
    split; [tauto|]. intros [H|(? & ? & [])]; exact H.
  - destruct (send_to_candidate_spec C i c st)
      as (Hn1 & Ho1 & evs1 & He1 & Ha1 & Hr1).
    destruct (IH (S i) (send_to_candidate C i c st))
      as (Hn2 & Ho2 & evs2 & He2 & Ha2 & Hr2).
    split; [intros x; now rewrite Hn2, Hn1|].
    split; [intros x; rewrite Ho2, Ho1; simpl; lia|].
    exists (evs1 ++ evs2). split; [now rewrite He2, He1, app_assoc|].
    split.
    + rewrite attempts_app, Ha1, Ha2. simpl. now destruct (is_found c).
    + rewrite Hr2, Hr1, some_accepted_app. tauto.
Qed.

Lemma found_slots_nil (cand : list batadv_dat_candidate) :
  forall i : nat,
    found_slots i cand = [] <-> Forall (fun c => is_found c = false) cand.
Proof.
  induction cand as [|c rest IH]; intros i; simpl.
  - split; [constructor | reflexivity].
  - destruct (is_found c) eqn:F.
    + split; [discriminate|]. intros H. inversion H; congruence.
    + rewrite IH. split; [now constructor | now inversion 1].
Qed.

Lemma send_loop_not_found (C : collaborators)
    (cand : list batadv_dat_candidate) :
  Forall (fun c => is_found c = false) cand ->
  forall (i : nat) (st : send_state), send_loop C i cand st = st.
Proof.
  induction 1 as [|c rest Hc _ IH]; intros i st; simpl; [reflexivity|].
  rewrite IH. unfold send_to_candidate. unfold is_found in Hc.
  now destruct (type c).
Qed.

Lemma held_not_found (cand : list batadv_dat_candidate) (x : Z) :
  Forall (fun c => is_found c = false) cand -> held cand x = 0.
Proof.
  induction 1 as [|c rest Hc _ IH]; simpl; [reflexivity|].
  rewrite Hc, IH. reflexivity.
Qed.

(** ** The selection on an empty registry *)

Lemma scan_table_empty (cands : list batadv_dat_candidate) (select : nat)
    (ip_key last_max : Z) (table : list (list batadv_orig_node))
    (st : scan_state) :
  Forall (fun head => head = []) table ->
  scan_table cands select ip_key last_max table st = Ok st.
Proof.
  induction 1 as [|head rest -> _ IH]; simpl; [reflexivity | exact IH].
Qed.

Lemma select_rounds_empty (table : list (list batadv_orig_node))
    (ip_key : Z) (rounds : nat) :
  Forall (fun head => head = []) table ->
  forall (select : nat) (s : select_state),
    (select + rounds <= length (sel_cands s))%nat ->
    Forall (fun c => is_found c = false) (take select (sel_cands s)) ->
    exists s',
      select_rounds table ip_key rounds select s = Ok s' /\
      sel_refs s' = sel_refs s /\
      length (sel_cands s') = length (sel_cands s) /\
      Forall (fun c => is_found c = false)
        (take (select + rounds) (sel_cands s')).
Proof.
  intros Hempty. induction rounds as [|rounds IH]; intros select s Hlen Hnf.
  - exists s. rewrite Nat.add_0_r. simpl. auto.
  - simpl. unfold batadv_choose_next_candidate.
    rewrite scan_table_empty by exact Hempty. simpl.
    set (cands0 := set_type (sel_cands s) select BATADV_DAT_CANDIDATE_NOT_FOUND).
    assert (Len0 : length cands0 = length (sel_cands s))
      by apply set_type_length.
    destruct (lookup_lt_is_Some_2 cands0 select) as [c0 Hc0]; [lia|].
    destruct (IH (S select)
                {| sel_cands := cands0; sel_last_max := 0;
                   sel_refs := sel_refs s |})
      as (s' & E & Hr & Hl & Hall).
    + simpl. lia.
    + simpl. rewrite (take_S_r _ _ _ Hc0). apply Forall_app. split.
      * unfold cands0. now rewrite set_type_take.
      * constructor; [|constructor]. unfold is_found.
        now rewrite (set_type_lookup_eq _ _ _ _ Hc0).
    + exists s'. split; [exact E|]. split; [exact Hr|].
      split; [simpl in Hl; lia|].
      now replace (select + S rounds)%nat with (S select + rounds)%nat by lia.
Qed.

(** On a registry without nodes the selection returns an array without a
    found slot and leaves the counters alone. *)
Lemma select_candidates_empty (table : list (list batadv_orig_node))
    (garbage : nat -> batadv_dat_candidate) (ip_dst : Z) (refs0 : refcounts) :
  Forall (fun head => head = []) table ->
  exists cands,
    batadv_dat_select_candidates (Some table) (Some garbage) ip_dst refs0
      = Ok (Some cands, refs0) /\
    Forall (fun c => is_found c = false) cands.
Proof.
  intros Hempty. unfold batadv_dat_select_candidates.
  destruct (select_rounds_empty table (dat_ip_key ip_dst)
              BATADV_DAT_CANDIDATES_NUM Hempty 0%nat
              {| sel_cands := kmalloc_array garbage BATADV_DAT_CANDIDATES_NUM;
                 sel_last_max := BATADV_DAT_ADDR_MAX; sel_refs := refs0 |})
    as (s' & -> & Hr & Hl & Hall).
  - cbn [sel_cands]. rewrite kmalloc_array_length. lia.
  - constructor.
  - cbn [sel_cands sel_refs] in *. rewrite kmalloc_array_length in Hl.
    exists (sel_cands s'). simpl. rewrite Hr. split; [reflexivity|].
    rewrite take_ge in Hall by (simpl; lia). exact Hall.
Qed.

(** ** The result and the side effects of a send *)

(** What a send that found no candidate leaves behind. *)
Lemma send_data_no_candidate (C : collaborators)
    (orig_hash : option (list (list batadv_orig_node)))
    (kmalloc : option (nat -> batadv_dat_candidate)) (ip4 : Z)
    (orig_refs0 neigh_refs0 : refcounts)
    (cands : list batadv_dat_candidate) (refs' : refcounts) :
  batadv_dat_select_candidates orig_hash kmalloc ip4 orig_refs0
    = Ok (Some cands, refs') ->
  found_slots 0 cands = [] ->
  exists st,
    batadv_dat_send_data C orig_hash kmalloc ip4 orig_refs0 neigh_refs0
      = Ok st /\
    ret st = false /\ events st = [] /\
    (forall x, orig_refs st x = orig_refs0 x) /\ neigh_refs st = neigh_refs0.
Proof.
  intros Sel Hnone. apply found_slots_nil in Hnone.
  unfold batadv_dat_send_data. rewrite Sel. simpl.
  rewrite send_loop_not_found by exact Hnone.
  eexists. split; [reflexivity|]. simpl.
  split; [reflexivity|]. split; [reflexivity|]. split; [|reflexivity].
  intros x. apply select_candidates_inv in Sel as (_ & _ & Hrefs).
  rewrite Hrefs, held_not_found by exact Hnone. lia.
Qed.

(** C6.  A send that returns, returns true exactly when the transport
    accepted the packet for some candidate.  When the registry is absent or
    the candidate array cannot be allocated, when the registry holds no node,
    and whenever the selection found no candidate, the send returns false
    without a call to a collaborator and with every counter as it was.  The
    send returns on every registry without a node at distance 0 of the
    key. *)
Theorem send_data_true_iff_accepted (C : collaborators)
    (orig_hash : option (list (list batadv_orig_node)))
    (kmalloc : option (nat -> batadv_dat_candidate)) (ip4 : Z)
    (orig_refs0 neigh_refs0 : refcounts) :
  let send :=
    batadv_dat_send_data C orig_hash kmalloc ip4 orig_refs0 neigh_refs0 in
  (forall st, send = Ok st -> (ret st = true <-> some_accepted (events st))) /\
  (orig_hash = None \/ kmalloc = None ->
   send = Ok {| ret := false; orig_refs := orig_refs0;
                neigh_refs := neigh_refs0; events := [] |}) /\
  (forall table garbage,
      orig_hash = Some table -> kmalloc = Some garbage ->
      Forall (fun head => head = []) table ->
      send = Ok {| ret := false; orig_refs := orig_refs0;
                   neigh_refs := neigh_refs0; events := [] |}) /\
  (forall cands refs',
      batadv_dat_select_candidates orig_hash kmalloc ip4 orig_refs0
        = Ok (Some cands, refs') ->
      found_slots 0 cands = [] ->
      exists st,
        send = Ok st /\ ret st = false /\ events st = [] /\
        (forall x, orig_refs st x = orig_refs0 x) /\
        neigh_refs st = neigh_refs0) /\
  (forall table,
      orig_hash = Some table ->
      no_zero_distance (dat_ip_key ip4) table ->
      exists st, send = Ok st).
Proof.
  cbv zeta. split; [|split; [|split; [|split]]].
  - intros st. unfold batadv_dat_send_data.
    destruct (batadv_dat_select_candidates _ _ _ _) as [[[cand|] refs']|];
      simpl; [| |discriminate].
    + intros [= <-].
      destruct (send_loop_spec C cand 0
                  {| ret := false; orig_refs := refs';
                     neigh_refs := neigh_refs0; events := [] |})
        as (_ & _ & evs & He & _ & Hr).
      simpl in He. rewrite He, Hr. simpl. split; [|tauto].
      intros [H|H]; [discriminate | exact H].
    + intros [= <-]. simpl. split; [discriminate|].
      intros (? & ? & []).
  - unfold batadv_dat_send_data, batadv_dat_select_candidates.
    intros [->| ->]; [reflexivity|]. now destruct orig_hash.
  - intros table garbage -> -> Hempty. unfold batadv_dat_send_data.
    destruct (select_candidates_empty table garbage ip4 orig_refs0 Hempty)
      as (cands & -> & Hnf).
    simpl. now rewrite send_loop_not_found.
  - intros cands refs'. apply send_data_no_candidate.
  - intros table -> Hnz. unfold batadv_dat_send_data.
    destruct kmalloc as [garbage|]; [|simpl; eauto].
    destruct (select_candidates_answers table garbage ip4 orig_refs0 Hnz)
      as (cands & refs' & ->).
    simpl. eauto.
Qed.

(** The theorem on the example registry: the send returns, and it returns
    true with an accepted transmission in its log. *)
Lemma send_data_true_iff_accepted_witness :
  exists st,
    batadv_dat_send_data example_collaborators (Some example_registry)
      (Some blank_memory) 1 (fun _ => 1) (fun _ => 1) = Ok st /\
    (ret st = true <-> some_accepted (events st)).
Proof.
  eexists. split; [vm_compute; reflexivity|].
  apply (send_data_true_iff_accepted example_collaborators
           (Some example_registry) (Some blank_memory) 1
           (fun _ => 1) (fun _ => 1)).
  vm_compute. reflexivity.
Defined.

(** C9.  Whatever the collaborators answer, the loop asks for a next hop
    once for every found slot, in the order of the array: no failure at a
    candidate stops it.  A send completes whenever the selection does, and
    when it returns every counter of a node and of a next hop is back at the
    value it had before the call. *)
Theorem send_data_releases_references (C : collaborators)
    (orig_hash : option (list (list batadv_orig_node)))
    (kmalloc : option (nat -> batadv_dat_candidate)) (ip4 : Z)
    (orig_refs0 neigh_refs0 : refcounts) :
  let send :=
    batadv_dat_send_data C orig_hash kmalloc ip4 orig_refs0 neigh_refs0 in
  (forall cand st,
      attempts (events (send_loop C 0 cand st))
      = attempts (events st) ++ found_slots 0 cand) /\
  (forall selected,
      batadv_dat_select_candidates orig_hash kmalloc ip4 orig_refs0
        = Ok selected ->
      exists st, send = Ok st) /\
  (forall st,
      send = Ok st ->
      (forall x, orig_refs st x = orig_refs0 x) /\
      (forall x, neigh_refs st x = neigh_refs0 x) /\
      (forall cands refs',
          batadv_dat_select_candidates orig_hash kmalloc ip4 orig_refs0
            = Ok (Some cands, refs') ->
          attempts (events st) = found_slots 0 cands)).
Proof.
  cbv zeta. split; [|split].
  - intros cand st.
    destruct (send_loop_spec C cand 0 st) as (_ & _ & evs & He & Ha & _).
    now rewrite He, attempts_app, Ha.
  - intros selected Sel. unfold batadv_dat_send_data. rewrite Sel. simpl.
    destruct (selected.1); eauto.
  - intros st. unfold batadv_dat_send_data.
    destruct (batadv_dat_select_candidates _ _ _ _) as [[[cand|] refs']|]
      eqn:Sel; simpl; [| |discriminate].
    + intros [= <-].
      destruct (send_loop_spec C cand 0
                  {| ret := false; orig_refs := refs';
                     neigh_refs := neigh_refs0; events := [] |})
        as (Hn & Ho & evs & He & Ha & _).
      apply select_candidates_inv in Sel as (_ & _ & Hrefs).
      simpl in *. split; [|split].
      * intros x. rewrite Ho, Hrefs. lia.
      * exact Hn.
      * intros cands refs'' [= <- <-]. now rewrite He.
    + intros [= <-]. simpl. split; [|split]; try reflexivity.
      * unfold batadv_dat_select_candidates in Sel.
        destruct orig_hash; [destruct kmalloc|].
        -- destruct (select_rounds _ _ _ _ _); simpl in Sel; congruence.
        -- injection Sel as <-. reflexivity.
        -- injection Sel as <-. reflexivity.
      * discriminate.
Qed.

(** The theorem on the example registry: the send returns with every counter
    as it was. *)
Lemma send_data_releases_references_witness :
  exists st,
    batadv_dat_send_data example_collaborators (Some example_registry)
      (Some blank_memory) 1 (fun _ => 1) (fun _ => 1) = Ok st /\
    (forall x, orig_refs st x = 1) /\ (forall x, neigh_refs st x = 1).
Proof.
  eexists. split; [vm_compute; reflexivity|].
  destruct (send_data_releases_references example_collaborators
              (Some example_registry) (Some blank_memory) 1
              (fun _ => 1) (fun _ => 1)) as (_ & _ & Hrel).
  edestruct Hrel as (Ho & Hn & _); [vm_compute; reflexivity|].
  split; [exact Ho | exact Hn].
Defined.

(** ** Lookups in the cache *)

Lemma hash_find_bucket_found (ip4 : Z) (head : list batadv_dat_entry) :
  forall (i : nat) (e : batadv_dat_entry) (head' : list batadv_dat_entry),
    hash_find_bucket ip4 head = (Some (i, e), head') ->
    exists e0,
      head !! i = Some e0 /\ ip e0 = ip4 /\ refcount e0 <> 0 /\
      e = acquired e0 /\ head' = <[i := e]> head /\
      Forall (skipped ip4) (take i head).
Proof.
  induction head as [|d rest IH]; simpl; intros i e head'; [discriminate|].
  destruct (hash_find_bucket ip4 rest) as [[[i' e']|] rest'] eqn:E.
  - destruct (IH i' e' rest' eq_refl) as (e0 & Hl & Hip & Hrc & He & Hh & Hsk).
    destruct (Z.eqb_spec (ip d) ip4) as [Eip|Nip]; simpl.
    + destruct (Z.eqb_spec (refcount d) 0) as [Z0|NZ].
      * intros [= <- <- <-]. exists e0. simpl.
        repeat split; try assumption; [now rewrite Hh|].
        constructor; [now right | exact Hsk].
      * intros [= <- <- <-]. exists d. simpl.
        repeat split; try assumption. constructor.
    + intros [= <- <- <-]. exists e0. simpl.
      repeat split; try assumption; [now rewrite Hh|].
      constructor; [now left | exact Hsk].
  - destruct (Z.eqb_spec (ip d) ip4) as [Eip|Nip]; simpl.
    + destruct (Z.eqb_spec (refcount d) 0) as [Z0|NZ]; [discriminate|].
      intros [= <- <- <-]. exists d. simpl.
      repeat split; try assumption. constructor.
    + discriminate.
Qed.

Lemma hash_find_bucket_none (ip4 : Z) (head : list batadv_dat_entry) :
  Forall (skipped ip4) head <-> hash_find_bucket ip4 head = (None, head).
Proof.
  induction head as [|d rest IH]; simpl.
  - split; [reflexivity | constructor].
  - split.
    + intros H. inversion H as [|? ? Hd Hrest]; subst.
      apply IH in Hrest. rewrite Hrest.
      destruct Hd as [Nip|Z0].
      * destruct (Z.eqb_spec (ip d) ip4); [contradiction | reflexivity].
      * rewrite Z0. simpl. now destruct (ip d =? ip4).
    + destruct (hash_find_bucket ip4 rest) as [[[i' e']|] rest'] eqn:E.
      * destruct (Z.eqb_spec (ip d) ip4); simpl;
          [destruct (Z.eqb_spec (refcount d) 0)|]; discriminate.
      * destruct (Z.eqb_spec (ip d) ip4) as [Eip|Nip]; simpl.
        -- destruct (Z.eqb_spec (refcount d) 0) as [Z0|NZ]; [|discriminate].
           intros [= ->]. constructor; [now right | now apply IH].
        -- intros [= ->]. constructor; [now left | now apply IH].
Qed.

Lemma hash_find_bucket_none_eq (ip4 : Z) (head head' : list batadv_dat_entry) :
  hash_find_bucket ip4 head = (None, head') -> head' = head.
Proof.
  revert head'. induction head as [|d rest IH]; simpl; intros head'.
  - now intros [= <-].
  - destruct (hash_find_bucket ip4 rest) as [[[i' e']|] rest'] eqn:E.
    + destruct (ip d =? ip4); simpl; [destruct (refcount d =? 0)|];
        discriminate.
    + rewrite (IH rest' eq_refl).
      destruct (ip d =? ip4); simpl; [destruct (refcount d =? 0)|];
        congruence.
Qed.

(** The lookup stops at the first entry of the bucket that has the address
    and a counter that is not zero. *)
Lemma hash_find_bucket_first (ip4 : Z) (head : list batadv_dat_entry) :
  forall (i : nat) (e0 : batadv_dat_entry),
    head !! i = Some e0 -> ip e0 = ip4 -> refcount e0 <> 0 ->
    Forall (skipped ip4) (take i head) ->
    hash_find_bucket ip4 head
    = (Some (i, acquired e0), <[i := acquired e0]> head).
Proof.
  induction head as [|d rest IH]; intros i e0 Hl Hip Hrc Hsk; [discriminate|].
  destruct i as [|i]; simpl in *.
  - injection Hl as ->. rewrite Hip, Z.eqb_refl. simpl.
    destruct (Z.eqb_spec (refcount e0) 0); [contradiction | reflexivity].
  - inversion Hsk as [|? ? Hd Hrest]; subst.
    rewrite (IH i e0 Hl eq_refl Hrc Hrest).
    destruct Hd as [Nip|Z0].
    + destruct (Z.eqb_spec (ip d) (ip e0)); [contradiction | reflexivity].
    + rewrite Z0. simpl. now destruct (ip d =? ip e0).
Qed.

Lemma dat_index_lt (t : batadv_hashtable) (ip4 : Z) :
  t <> [] -> (dat_index t ip4 < length t)%nat.
Proof.
  intros Ht. unfold dat_index, batadv_hash_dat, hash_size.
  assert (0 < Z.of_nat (length t)) by (destruct t; [congruence | simpl; lia]).
  pose proof (Z.mod_pos_bound (hash_dat_mix (be32_bytes ip4))
                (Z.of_nat (length t))).
  lia.
Qed.

Lemma dat_index_length (t t' : batadv_hashtable) (ip4 : Z) :
  length t' = length t -> dat_index t' ip4 = dat_index t ip4.
Proof. intros H. unfold dat_index, hash_size. now rewrite H. Qed.

(** From here on the bucket index is only known through the two lemmas
    above. *)
Opaque dat_index.

Lemma alter_insert_eq {A : Type} (f : A -> A) (l : list A) (i : nat) (x : A) :
  alter f i (<[i := x]> l) = <[i := f x]> l.
Proof.
  revert i. induction l as [|a l IH]; intros [|i]; simpl; try reflexivity.
  f_equal. apply IH.
Qed.

Lemma entry_count_insert (t : batadv_hashtable) :
  forall (i : nat) (head head' : list batadv_dat_entry),
    t !! i = Some head -> length head' = length head ->
    entry_count (<[i := head']> t) = entry_count t.
Proof.
  unfold entry_count.
  induction t as [|b t IH]; intros [|i] head head' Hl Hlen; simpl in *;
    try discriminate.
  - injection Hl as ->. rewrite !length_app. lia.
  - rewrite !length_app. f_equal. eapply IH; eassumption.
Qed.

Lemma hash_find_found (t : batadv_hashtable) (ip4 : Z)
    (head : list batadv_dat_entry) (i : nat) (e0 : batadv_dat_entry) :
  first_live t ip4 head i e0 ->
  batadv_dat_entry_hash_find (Some t) ip4
  = (Some ((dat_index t ip4, i), acquired e0),
     Some (<[dat_index t ip4 := <[i := acquired e0]> head]> t)).
Proof.
  intros (Hb & Hl & Hip & Hrc & Hsk). unfold batadv_dat_entry_hash_find.
  rewrite Hb, (hash_find_bucket_first ip4 head i e0 Hl Hip Hrc Hsk).
  reflexivity.
Qed.

Lemma hash_find_not_found (t : batadv_hashtable) (ip4 : Z)
    (hash' : option batadv_hashtable) :
  batadv_dat_entry_hash_find (Some t) ip4 = (None, hash') ->
  hash' = Some t /\
  forall head, t !! dat_index t ip4 = Some head -> Forall (skipped ip4) head.
Proof.
  unfold batadv_dat_entry_hash_find.
  destruct (t !! dat_index t ip4) as [head|] eqn:Hb.
  - destruct (hash_find_bucket ip4 head) as [[[i e]|] head'] eqn:E;
      [discriminate|].
    intros [= <-]. split; [reflexivity|]. intros ? [= <-].
    pose proof (hash_find_bucket_none_eq _ _ _ E) as ->.
    now apply hash_find_bucket_none.
  - intros [= <-]. split; [reflexivity | discriminate].
Qed.

Lemma dat_lookup_first_live (t : batadv_hashtable) (ip4 : Z)
    (head : list batadv_dat_entry) (i : nat) (e0 : batadv_dat_entry) :
  first_live t ip4 head i e0 -> dat_lookup (Some t) ip4 = Some (acquired e0).
Proof.
  intros H. unfold dat_lookup. now rewrite (hash_find_found _ _ _ _ _ H).
Qed.

(** ** Updating a known entry *)

Lemma entry_add_known (t : batadv_hashtable) (ip4 mac jiffies : Z)
    (kmalloc : bool) (head : list batadv_dat_entry) (i : nat)
    (e0 : batadv_dat_entry) :
  first_live t ip4 head i e0 ->
  let t' := <[dat_index t ip4 := <[i := updated e0 mac jiffies]> head]> t in
  batadv_dat_entry_add (Some t) ip4 mac jiffies kmalloc = (Some t', []) /\
  first_live t' ip4 (<[i := updated e0 mac jiffies]> head) i
    (updated e0 mac jiffies) /\
  entry_count t' = entry_count t /\
  (table_live t -> table_live t').
Proof.
  intros Hfl. pose proof Hfl as (Hb & Hl & Hip & Hrc & Hsk). cbv zeta.
  assert (Hi : (i < length head)%nat) by (eapply lookup_lt_Some; exact Hl).
  assert (Hidx : (dat_index t ip4 < length t)%nat)
    by (eapply lookup_lt_Some; exact Hb).
  split; [|split; [|split]].
  - unfold batadv_dat_entry_add. rewrite (hash_find_found _ _ _ _ _ Hfl).
    unfold batadv_dat_entry_add_known, batadv_dat_entry_free_ref, store_at.
    cbn [fst snd].
    rewrite alter_insert_eq, list_insert_insert_eq.
    assert (E : forall e, mac_addr e = mac -> ip e = ip e0 ->
              refcount e = refcount e0 + 1 ->
              set_refcount (set_last_update e jiffies)
                (refcount (set_last_update e jiffies) - 1)
              = updated e0 mac jiffies).
    { intros e Hm Hi' Hr. unfold set_refcount, set_last_update, updated.
      simpl. f_equal; try assumption. lia. }
    unfold batadv_compare_eth.
    destruct (Z.eqb_spec (mac_addr (acquired e0)) mac) as [Em|Nm];
      [change (1 =? 0) with false | change (0 =? 0) with true];
      cbv iota; rewrite E by (simpl; auto);
      change (refcount (updated e0 mac jiffies)) with (refcount e0);
      (destruct (Z.eqb_spec (refcount e0) 0); [contradiction | reflexivity]).
  - unfold first_live.
    rewrite (dat_index_length t
               (<[dat_index t ip4 := <[i := updated e0 mac jiffies]> head]> t))
      by apply length_insert.
    rewrite list_lookup_insert_eq by exact Hidx.
    rewrite list_lookup_insert_eq by exact Hi.
    rewrite take_insert_ge by lia. simpl. auto.
  - eapply entry_count_insert; [exact Hb | apply length_insert].
  - intros Hlive. unfold table_live in *. apply Forall_insert; [exact Hlive|].
    pose proof (Forall_lookup_1 _ _ _ _ Hlive Hb) as Hhead.
    apply Forall_insert; [exact Hhead|].
    simpl. exact (Forall_lookup_1 _ _ _ _ Hhead Hl).
Qed.

(** ** Inserting a new entry *)

Lemma hash_add_duplicate (ip4 : Z) (head : list batadv_dat_entry) :
  existsb (fun node => negb (batadv_compare_dat node ip4 =? 0)) head = true
  <-> exists e, In e head /\ ip e = ip4.
Proof.
  rewrite existsb_exists. unfold batadv_compare_dat.
  split; intros (e & Hin & He); exists e; (split; [exact Hin|]).
  - destruct (Z.eqb_spec (ip e) ip4); [assumption | discriminate].
  - rewrite He, Z.eqb_refl. reflexivity.
Qed.

Lemma skipped_live_no_duplicate (ip4 : Z) (head : list batadv_dat_entry) :
  Forall (skipped ip4) head -> Forall (fun e => 0 < refcount e) head ->
  existsb (fun node => negb (batadv_compare_dat node ip4 =? 0)) head = false.
Proof.
  intros Hsk Hlive.
  destruct (existsb _ head) eqn:Ex; [|reflexivity].
  apply hash_add_duplicate in Ex as (e & Hin & He).
  rewrite List.Forall_forall in Hsk, Hlive.
  specialize (Hsk e Hin). specialize (Hlive e Hin).
  destruct Hsk; [contradiction | lia].
Qed.

(** The entry [batadv_dat_entry_add] links for an address that was not
    known, once the reference of the caller is gone. *)
Lemma entry_add_new_links (t : batadv_hashtable) (ip4 mac jiffies : Z)
    (head : list batadv_dat_entry) :
  t !! dat_index t ip4 = Some head ->
  existsb (fun node => negb (batadv_compare_dat node ip4 =? 0)) head = false ->
  batadv_dat_entry_add_new (Some t) ip4 mac jiffies true
  = (Some (<[dat_index t ip4 :=
              {| ip := ip4; mac_addr := mac; last_update := jiffies;
                 refcount := 1 |} :: head]> t), []).
Proof.
  intros Hb Hnodup.
  unfold batadv_dat_entry_add_new, batadv_hash_add. cbn [negb].
  rewrite Hb, Hnodup. unfold store_at. cbn [fst snd].
  rewrite (dat_index_length t) by apply length_insert.
  unfold batadv_dat_entry_free_ref, set_refcount.
  cbn [refcount ip mac_addr last_update].
  change (2 - 1) with 1. change (1 =? 0) with false. cbv beta iota zeta.
  rewrite alter_insert_eq. reflexivity.
Qed.

(** C7.  An insertion that does not complete leaves the table as it was and
    discards the entry it built.  When the allocation fails nothing was
    built and nothing changes.  When the bucket already holds an entry with
    the address, or there is no table, the entry in flight loses both its
    references and is handed to [kfree_rcu], and the table is the one
    [batadv_hash_add] saw.  So a call that found no entry and then failed to
    insert returns the table unchanged, and every later lookup answers as
    before. *)
Theorem entry_add_failure_is_noop (hash : option batadv_hashtable)
    (ip4 mac jiffies : Z) :
  let in_flight :=
    {| ip := ip4; mac_addr := mac; last_update := jiffies; refcount := 0 |} in
  batadv_dat_entry_add_new hash ip4 mac jiffies false = (hash, []) /\
  batadv_dat_entry_add_new None ip4 mac jiffies true = (None, [in_flight]) /\
  (forall t head e,
      hash = Some t -> t !! dat_index t ip4 = Some head ->
      In e head -> ip e = ip4 ->
      batadv_dat_entry_add_new hash ip4 mac jiffies true
      = (hash, [in_flight])) /\
  (forall kmalloc,
      (batadv_dat_entry_hash_find hash ip4).1 = None ->
      kmalloc = false \/
      (exists t head e,
          hash = Some t /\ t !! dat_index t ip4 = Some head /\
          In e head /\ ip e = ip4) ->
      batadv_dat_entry_add hash ip4 mac jiffies kmalloc
      = (hash, if kmalloc then [in_flight] else []) /\
      forall a,
        dat_lookup (batadv_dat_entry_add hash ip4 mac jiffies kmalloc).1 a
        = dat_lookup hash a).
Proof.
  cbv zeta.
  assert (Hlost : forall t head e,
             hash = Some t -> t !! dat_index t ip4 = Some head ->
             In e head -> ip e = ip4 ->
             batadv_dat_entry_add_new hash ip4 mac jiffies true
             = (hash,
                [{| ip := ip4; mac_addr := mac; last_update := jiffies;
                    refcount := 0 |}])).
  { intros t head e -> Hb Hin He.
    unfold batadv_dat_entry_add_new, batadv_hash_add. cbn [negb].
    rewrite Hb.
    replace (existsb _ head) with true
      by (symmetry; apply hash_add_duplicate; eauto).
    reflexivity. }
  split; [reflexivity|]. split; [reflexivity|]. split; [exact Hlost|].
  intros kmalloc Hfind Hfail.
  assert (E : batadv_dat_entry_add hash ip4 mac jiffies kmalloc
              = batadv_dat_entry_add_new hash ip4 mac jiffies kmalloc).
  { unfold batadv_dat_entry_add.
    destruct hash as [t|]; [|reflexivity].
    destruct (batadv_dat_entry_hash_find (Some t) ip4) as [[[h e]|] hash']
      eqn:F; [discriminate|].
    now apply hash_find_not_found in F as (-> & _). }
  assert (R : batadv_dat_entry_add hash ip4 mac jiffies kmalloc
              = (hash,
                 if kmalloc
                 then [{| ip := ip4; mac_addr := mac; last_update := jiffies;
                          refcount := 0 |}]
                 else [])).
  { rewrite E. destruct kmalloc; [|reflexivity].
    destruct Hfail as [|(t & head & e & Ht & Hb & Hin & He)]; [discriminate|].
    eapply Hlost; eassumption. }
  split; [exact R|]. intros a. now rewrite R.
Qed.

(** The theorem on a table of one bucket that holds, for the address 5, an
    entry whose counter reached zero: the lookup finds nothing, the
    insertion loses, and the call changes nothing. *)
Lemma entry_add_failure_is_noop_witness :
  let dead :=
    {| ip := 5; mac_addr := 1; last_update := 0; refcount := 0 |} in
  batadv_dat_entry_add (Some [[dead]]) 5 2 7 true
  = (Some [[dead]],
     [{| ip := 5; mac_addr := 2; last_update := 7; refcount := 0 |}]).
Proof.
  intros dead.
  apply (entry_add_failure_is_noop (Some [[dead]]) 5 2 7).
  - reflexivity.
  - right. exists [[dead]], [dead], dead.
    repeat split; try reflexivity. now left.
Defined.

(** ** Lookups against entries that are being freed *)

(** C8.  A lookup hands out an entry only after it raised a counter that was
    not zero: the handle it returns designates an entry of the address whose
    counter was not zero before the call.  An entry whose counter reached
    zero is passed over: when every entry of the address in the bucket is in
    that state the lookup reports that it found nothing and leaves the table
    as it was, and otherwise it goes on to the first entry of the address
    that is still referenced. *)
Theorem hash_find_skips_released_entries (t : batadv_hashtable) (ip4 : Z) :
  (forall h e hash',
      batadv_dat_entry_hash_find (Some t) ip4 = (Some (h, e), hash') ->
      exists e0,
        entry_at t h = Some e0 /\ ip e0 = ip4 /\ refcount e0 <> 0 /\
        e = acquired e0) /\
  (forall head,
      t !! dat_index t ip4 = Some head ->
      Forall (fun e => ip e = ip4 -> refcount e = 0) head ->
      batadv_dat_entry_hash_find (Some t) ip4 = (None, Some t) /\
      dat_lookup (Some t) ip4 = None) /\
  (forall head i e0,
      first_live t ip4 head i e0 ->
      dat_lookup (Some t) ip4 = Some (acquired e0)).
Proof.
  split; [|split].
  - intros h e hash'. unfold batadv_dat_entry_hash_find, entry_at.
    destruct (t !! dat_index t ip4) as [head|] eqn:Hb; [|discriminate].
    destruct (hash_find_bucket ip4 head) as [[[i e']|] head'] eqn:F;
      [|discriminate].
    intros [= <- <- <-]. cbn [fst snd]. rewrite Hb.
    apply hash_find_bucket_found in F as (e0 & Hl & Hip & Hrc & He & _).
    exists e0. auto.
  - intros head Hb Hdead.
    assert (F : hash_find_bucket ip4 head = (None, head)).
    { apply hash_find_bucket_none.
      eapply List.Forall_impl; [|exact Hdead].
      intros e He. unfold skipped.
      destruct (Z.eq_dec (ip e) ip4); [right; auto | now left]. }
    unfold dat_lookup, batadv_dat_entry_hash_find. rewrite Hb, F. auto.
  - intros head i e0. apply dat_lookup_first_live.
Qed.

(** The theorem on a bucket that holds, for the address 5, an entry whose
    counter reached zero: the lookup finds nothing. *)
Lemma hash_find_skips_released_entries_witness :
  dat_lookup
    (Some [[ {| ip := 5; mac_addr := 1; last_update := 0; refcount := 0 |} ]])
    5 = None.
Proof.
  eapply (hash_find_skips_released_entries
            [[ {| ip := 5; mac_addr := 1; last_update := 0; refcount := 0 |} ]]
            5).
  - reflexivity.
  - repeat constructor.
Defined.

(** ** The purge *)

Lemma purge_bucket_kept (to_purge : option (batadv_dat_entry -> bool))
    (head : list batadv_dat_entry) :
  (purge_bucket to_purge head).1
  = List.filter (fun e => negb (purged to_purge e)) head.
Proof.
  induction head as [|e rest IH]; [reflexivity|]. simpl.
  destruct (purge_bucket to_purge rest) as [kept freed]. simpl in IH.
  unfold purged at 1. destruct to_purge as [f|]; simpl.
  - destruct (f e); simpl; [|now rewrite IH].
    destruct (refcount e - 1 =? 0); exact IH.
  - destruct (refcount e - 1 =? 0); exact IH.
Qed.

(** C5.  A purge leaves in every bucket exactly the entries its helper does
    not select, in their order; without a helper it leaves every bucket
    empty.  The periodic purge removes the entries whose last update is older
    than the timeout and keeps the others. *)
Theorem purge_removes_exactly_the_selected (t : batadv_hashtable)
    (to_purge : option (batadv_dat_entry -> bool)) (timeout jiffies : Z) :
  (__batadv_dat_purge (Some t) to_purge).1
  = Some (map (List.filter (fun e => negb (purged to_purge e))) t) /\
  (__batadv_dat_purge (Some t) None).1 = Some (map (fun _ => []) t) /\
  (__batadv_dat_purge None to_purge).1 = None /\
  exists t',
    (batadv_dat_purge timeout jiffies (Some t)).1 = Some t' /\
    length t' = length t /\
    forall (i : nat) head head' e,
      t !! i = Some head -> t' !! i = Some head' ->
      (In e head' <-> In e head /\ jiffies - last_update e <= timeout).
Proof.
  assert (Hkept : forall p,
            (__batadv_dat_purge (Some t) p).1
            = Some (map (List.filter (fun e => negb (purged p e))) t)).
  { intros p. unfold __batadv_dat_purge. cbn [fst]. f_equal.
    rewrite map_map. apply map_ext. intros head. apply purge_bucket_kept. }
  split; [apply Hkept|]. split; [|split; [reflexivity|]].
  - rewrite Hkept. f_equal. apply map_ext. intros head.
    induction head as [|e rest IH]; [reflexivity | exact IH].
  - eexists. split; [apply Hkept|]. split; [apply length_map|].
    intros i head head' e Hi Hi'.
    change (map ?f t) with (f <$> t) in Hi'.
    rewrite list_lookup_fmap, Hi in Hi'. injection Hi' as <-.
    rewrite filter_In. unfold purged, batadv_dat_to_purge, batadv_has_timed_out.
    destruct (Z.gtb_spec (jiffies - last_update e) timeout); simpl;
      intuition (try discriminate; try lia).
Qed.

(** ** Adding and looking up *)

(** C4.  On a table that exists, has buckets, and whose linked entries all
    hold a reference: after [batadv_dat_entry_add] of [(A, H1)] with a
    successful allocation a lookup of [A] returns an entry with hardware
    address [H1] and the timestamp of the call; after a further add of
    [(A, H2)], whatever the allocator would do, the lookup returns [H2] with
    the new timestamp, and the table holds as many entries as before that
    second call.  The copy of the hardware address is guarded by the test
    that the stored and the new address differ. *)
Theorem entry_add_then_lookup (t : batadv_hashtable)
    (A H1 H2 j1 j2 : Z) (kmalloc2 : bool) :
  t <> [] -> table_live t ->
  (forall stored new,
      (batadv_compare_eth stored new =? 0) = true <-> stored <> new) /\
  exists t1 t2 e1 e2,
    batadv_dat_entry_add (Some t) A H1 j1 true = (Some t1, []) /\
    dat_lookup (Some t1) A = Some e1 /\
    ip e1 = A /\ mac_addr e1 = H1 /\ last_update e1 = j1 /\
    batadv_dat_entry_add (Some t1) A H2 j2 kmalloc2 = (Some t2, []) /\
    dat_lookup (Some t2) A = Some e2 /\
    ip e2 = A /\ mac_addr e2 = H2 /\ last_update e2 = j2 /\
    entry_count t2 = entry_count t1.
Proof.
  intros Hne Hlive. split.
  { intros stored new. unfold batadv_compare_eth.
    destruct (Z.eqb_spec stored new); simpl; split; congruence. }
  (* the first call leaves an entry that a lookup finds *)
  assert (First : exists t1 head1 i1 e1,
             batadv_dat_entry_add (Some t) A H1 j1 true = (Some t1, []) /\
             first_live t1 A head1 i1 e1 /\
             mac_addr e1 = H1 /\ last_update e1 = j1).
  { destruct (batadv_dat_entry_hash_find (Some t) A) as [[[h e]|] hash'] eqn:F.
    - pose proof F as F'. unfold batadv_dat_entry_hash_find in F'.
      destruct (t !! dat_index t A) as [head|] eqn:Hb; [|discriminate].
      destruct (hash_find_bucket A head) as [[[i e']|] head'] eqn:Fb;
        [|discriminate].
      apply hash_find_bucket_found in Fb as (e0 & Hl & Hip & Hrc & _ & _ & Hsk).
      assert (Hfl : first_live t A head i e0) by (unfold first_live; auto).
      destruct (entry_add_known t A H1 j1 true head i e0 Hfl)
        as (Hadd & Hfl' & _ & _).
      eexists _, _, _, _. split; [exact Hadd|]. split; [exact Hfl'|]. auto.
    - pose proof F as F'. apply hash_find_not_found in F' as (-> & Hsk).
      destruct (lookup_lt_is_Some_2 t (dat_index t A)) as [head Hb];
        [now apply dat_index_lt|].
      specialize (Hsk head Hb).
      pose proof (Forall_lookup_1 _ _ _ _ Hlive Hb) as Hhead.
      pose proof (skipped_live_no_duplicate A head Hsk Hhead) as Hnodup.
      set (new := {| ip := A; mac_addr := H1; last_update := j1;
                     refcount := 1 |}).
      exists (<[dat_index t A := new :: head]> t), (new :: head), 0%nat, new.
      split.
      { unfold batadv_dat_entry_add. rewrite F.
        exact (entry_add_new_links t A H1 j1 head Hb Hnodup). }
      split; [|split; reflexivity].
      unfold first_live.
      rewrite (dat_index_length t) by apply length_insert.
      rewrite list_lookup_insert_eq by (eapply lookup_lt_Some; exact Hb).
      simpl. repeat split; try reflexivity; [lia | constructor]. }
  destruct First as (t1 & head1 & i1 & e1 & Hadd1 & Hfl1 & Hm1 & Hj1).
  destruct (entry_add_known t1 A H2 j2 kmalloc2 head1 i1 e1 Hfl1)
    as (Hadd2 & Hfl2 & Hcount & _).
  pose proof Hfl1 as (_ & _ & Hip1 & _).
  eexists t1, _, (acquired e1), (acquired (updated e1 H2 j2)).
  split; [exact Hadd1|].
  split; [exact (dat_lookup_first_live _ _ _ _ _ Hfl1)|].
  split; [exact Hip1|]. split; [exact Hm1|]. split; [exact Hj1|].
  split; [exact Hadd2|].
  split; [exact (dat_lookup_first_live _ _ _ _ _ Hfl2)|].
  split; [exact Hip1|]. split; [reflexivity|]. split; [reflexivity|].
  exact Hcount.
Qed.

(** The theorem on a fresh table of two buckets, for the address 5 and the
    hardware addresses 1 and 2. *)
Lemma entry_add_then_lookup_witness :
  exists t1 t2 e1 e2,
    batadv_dat_entry_add (Some [[]; []]) 5 1 10 true = (Some t1, []) /\
    dat_lookup (Some t1) 5 = Some e1 /\
    ip e1 = 5 /\ mac_addr e1 = 1 /\ last_update e1 = 10 /\
    batadv_dat_entry_add (Some t1) 5 2 20 false = (Some t2, []) /\
    dat_lookup (Some t2) 5 = Some e2 /\
    ip e2 = 5 /\ mac_addr e2 = 2 /\ last_update e2 = 20 /\
    entry_count t2 = entry_count t1.
Proof.
  apply (entry_add_then_lookup [[]; []] 5 1 2 10 20 false).
  - discriminate.
  - repeat constructor.
Defined.

(** * Further properties of the cache *)

(** ** Lookups, bucket by bucket *)

Lemma dat_lookup_bucket (t : batadv_hashtable) (ip4 : Z) :
  dat_lookup (Some t) ip4
  = match t !! dat_index t ip4 with
    | Some head => bucket_lookup ip4 head
    | None => None
    end.
Proof.
  unfold dat_lookup, batadv_dat_entry_hash_find, bucket_lookup.
  destruct (t !! dat_index t ip4) as [head|]; [|reflexivity].
  now destruct (hash_find_bucket ip4 head) as [[[i e]|] head'].
Qed.

Lemma bucket_lookup_cons (ip4 : Z) (d : batadv_dat_entry)
    (head : list batadv_dat_entry) :
  bucket_lookup ip4 (d :: head)
  = if (ip d =? ip4) && negb (refcount d =? 0)
    then Some (acquired d) else bucket_lookup ip4 head.
Proof.
  unfold bucket_lookup. simpl.
  destruct (hash_find_bucket ip4 head) as [[[i e]|] head'];
    destruct (ip d =? ip4); simpl; try reflexivity;
    destruct (refcount d =? 0); reflexivity.
Qed.

Lemma bucket_lookup_skip (ip4 : Z) (d : batadv_dat_entry)
    (head : list batadv_dat_entry) :
  skipped ip4 d -> bucket_lookup ip4 (d :: head) = bucket_lookup ip4 head.
Proof.
  intros [Nip|Z0]; rewrite bucket_lookup_cons.
  - destruct (Z.eqb_spec (ip d) ip4); [contradiction | reflexivity].
  - rewrite Z0, Z.eqb_refl, andb_false_r. reflexivity.
Qed.

Lemma bucket_lookup_first (ip4 : Z) (head : list batadv_dat_entry)
    (i : nat) (e0 : batadv_dat_entry) :
  head !! i = Some e0 -> ip e0 = ip4 -> refcount e0 <> 0 ->
  Forall (skipped ip4) (take i head) ->
  bucket_lookup ip4 head = Some (acquired e0).
Proof.
  intros Hl Hip Hrc Hsk. unfold bucket_lookup.
  now rewrite (hash_find_bucket_first ip4 head i e0 Hl Hip Hrc Hsk).
Qed.

Lemma bucket_lookup_found (ip4 : Z) (head : list batadv_dat_entry)
    (e : batadv_dat_entry) :
  bucket_lookup ip4 head = Some e ->
  exists i e0,
    head !! i = Some e0 /\ ip e0 = ip4 /\ refcount e0 <> 0 /\
    e = acquired e0 /\ Forall (skipped ip4) (take i head).
Proof.
  unfold bucket_lookup.
  destruct (hash_find_bucket ip4 head) as [[[i e']|] head'] eqn:F;
    [|discriminate].
  cbn [fst]. intros [= <-].
  apply hash_find_bucket_found in F as (e0 & Hl & Hip & Hrc & He & _ & Hsk).
  exists i, e0. auto.
Qed.

Lemma bucket_lookup_none (ip4 : Z) (head : list batadv_dat_entry) :
  bucket_lookup ip4 head = None <-> Forall (skipped ip4) head.
Proof.
  induction head as [|d head IH]; [split; [constructor | reflexivity]|].
  rewrite bucket_lookup_cons.
  destruct (Z.eqb_spec (ip d) ip4) as [E|N];
    [destruct (Z.eqb_spec (refcount d) 0) as [Z0|NZ]|]; cbn [andb negb].
  - rewrite IH. split; [constructor; [now right | assumption]|].
    now inversion 1.
  - split; [discriminate|]. inversion 1 as [|? ? [?|?]]; contradiction.
  - rewrite IH. split; [constructor; [now left | assumption]|].
    now inversion 1.
Qed.

(** Replacing an entry of another address, or prepending one, does not
    change what the lookup of an address finds in the bucket. *)
Lemma bucket_lookup_insert_other (ip4 : Z) (head : list batadv_dat_entry) :
  forall (i : nat) (e0 e' : batadv_dat_entry),
    head !! i = Some e0 -> ip e0 <> ip4 -> ip e' <> ip4 ->
    bucket_lookup ip4 (<[i := e']> head) = bucket_lookup ip4 head.
Proof.
  induction head as [|d head IH]; intros [|i] e0 e' Hl N0 N'; try discriminate.
  - simpl in Hl. injection Hl as ->. simpl.
    now rewrite !bucket_lookup_skip by (now left).
  - simpl in *. rewrite !bucket_lookup_cons.
    now rewrite (IH i e0 e' Hl N0 N').
Qed.

(** ** What an insertion or update does to the table *)

(** The three outcomes of [batadv_dat_entry_add] on a table: nothing changes,
    the entry the lookup found is updated in place, or a new entry is linked
    at the head of a bucket that held no entry of the address. *)
Lemma entry_add_shape (t : batadv_hashtable) (ip4 mac jiffies : Z)
    (kmalloc : bool) :
  let r := batadv_dat_entry_add (Some t) ip4 mac jiffies kmalloc in
  r.1 = Some t \/
  (exists head i e0,
      first_live t ip4 head i e0 /\
      r = (Some (<[dat_index t ip4 := <[i := updated e0 mac jiffies]> head]> t),
           [])) \/
  (exists head,
      t !! dat_index t ip4 = Some head /\
      Forall (fun e => ip e <> ip4) head /\ kmalloc = true /\
      r = (Some (<[dat_index t ip4 := fresh_entry ip4 mac jiffies :: head]> t),
           [])).
Proof.
  cbv zeta.
  destruct (batadv_dat_entry_hash_find (Some t) ip4) as [[[h e]|] hash'] eqn:F.
  - right; left. pose proof F as F'.
    unfold batadv_dat_entry_hash_find in F'.
    destruct (t !! dat_index t ip4) as [head|] eqn:Hb; [|discriminate].
    destruct (hash_find_bucket ip4 head) as [[[i e']|] head'] eqn:Fb;
      [|discriminate].
    apply hash_find_bucket_found in Fb as (e0 & Hl & Hip & Hrc & _ & _ & Hsk).
    assert (Hfl : first_live t ip4 head i e0) by (unfold first_live; auto).
    exists head, i, e0. split; [exact Hfl|].
    now destruct (entry_add_known t ip4 mac jiffies kmalloc head i e0 Hfl).
  - pose proof F as F'. apply hash_find_not_found in F' as (-> & _).
    unfold batadv_dat_entry_add. rewrite F.
    unfold batadv_dat_entry_add_new.
    destruct kmalloc; cbn [negb]; [|now left].
    unfold batadv_hash_add.
    destruct (t !! dat_index t ip4) as [head|] eqn:Hb; [|now left].
    destruct (existsb _ head) eqn:Ex; [now left|].
    right; right. exists head. split; [reflexivity|]. split.
    + apply List.Forall_forall. intros e Hin He.
      assert (existsb
                (fun node => negb (batadv_compare_dat node ip4 =? 0)) head
              = true) by (apply hash_add_duplicate; eauto).
      congruence.
    + split; [reflexivity|].
      pose proof (entry_add_new_links t ip4 mac jiffies head Hb Ex) as H.
      unfold batadv_dat_entry_add_new, batadv_hash_add in H.
      cbn [negb] in H. rewrite Hb, Ex in H. exact H.
Qed.

(** X1.  Adding or updating the entry of an address leaves the lookup of
    every other address as it was, whatever the state of the table and
    whether or not the insertion succeeds. *)
Theorem entry_add_keeps_other_addresses (hash0 : option batadv_hashtable)
    (A B mac jiffies : Z) (kmalloc : bool) :
  A <> B ->
  dat_lookup (batadv_dat_entry_add hash0 A mac jiffies kmalloc).1 B
  = dat_lookup hash0 B.
Proof.
  intros HAB. destruct hash0 as [t|].
  2:{ unfold batadv_dat_entry_add, batadv_dat_entry_add_new. simpl.
      now destruct kmalloc. }
  destruct (entry_add_shape t A mac jiffies kmalloc)
    as [E|[(head & i & e0 & Hfl & E)|(head & Hb & Hno & _ & E)]].
  - now rewrite E.
  - rewrite E. cbn [fst]. destruct Hfl as (Hb & Hl & Hip & _).
    rewrite !dat_lookup_bucket.
    rewrite (dat_index_length t) by apply length_insert.
    destruct (decide (dat_index t A = dat_index t B)) as [Ei|Ni].
    + rewrite <- Ei, Hb.
      rewrite list_lookup_insert_eq by (eapply lookup_lt_Some; exact Hb).
      apply (bucket_lookup_insert_other B head i e0); [exact Hl|lia|].
      simpl. lia.
    + now rewrite list_lookup_insert_ne.
  - rewrite E. cbn [fst]. rewrite !dat_lookup_bucket.
    rewrite (dat_index_length t) by apply length_insert.
    destruct (decide (dat_index t A = dat_index t B)) as [Ei|Ni].
    + rewrite <- Ei, Hb.
      rewrite list_lookup_insert_eq by (eapply lookup_lt_Some; exact Hb).
      apply bucket_lookup_skip. left. simpl. exact HAB.
    + now rewrite list_lookup_insert_ne.
Qed.

(** The theorem on a table of one bucket that holds the address 6: adding
    the address 5 leaves the lookup of 6 as it was. *)
Lemma entry_add_keeps_other_addresses_witness :
  let t := [[ {| ip := 6; mac_addr := 9; last_update := 0; refcount := 1 |} ]] in
  dat_lookup (batadv_dat_entry_add (Some t) 5 1 10 true).1 6
  = dat_lookup (Some t) 6.
Proof.
  intros t. apply (entry_add_keeps_other_addresses (Some t) 5 6 1 10 true).
  discriminate.
Defined.

(** ** The invariant of the table *)

Lemma In_insert {A : Type} (l : list A) :
  forall (i : nat) (x a : A), In a (<[i := x]> l) -> a = x \/ In a l.
Proof.
  induction l as [|b l IH]; intros [|i] x a; simpl; try tauto.
  - intros [<-|H]; tauto.
  - intros [<-|H]; [tauto|]. destruct (IH i x a H); tauto.
Qed.

Lemma map_ip_insert (head : list batadv_dat_entry) :
  forall (i : nat) (e0 e' : batadv_dat_entry),
    head !! i = Some e0 -> ip e' = ip e0 ->
    map ip (<[i := e']> head) = map ip head.
Proof.
  induction head as [|d head IH]; intros [|i] e0 e' Hl He; try discriminate;
    simpl in *.
  - injection Hl as ->. now rewrite He.
  - f_equal. eapply IH; eassumption.
Qed.

Lemma well_placed_insert (t : batadv_hashtable) (i : nat)
    (head head' : list batadv_dat_entry) :
  well_placed t -> t !! i = Some head ->
  (forall e, In e head' -> In e head \/ dat_index t (ip e) = i) ->
  well_placed (<[i := head']> t).
Proof.
  intros Hwp Hb Hnew j b e Hj Hin.
  rewrite (dat_index_length t) by apply length_insert.
  destruct (decide (i = j)) as [<-|N].
  - rewrite list_lookup_insert_eq in Hj by (eapply lookup_lt_Some; exact Hb).
    injection Hj as <-. destruct (Hnew e Hin) as [H|H]; [|exact H].
    exact (Hwp i head e Hb H).
  - rewrite list_lookup_insert_ne in Hj by exact N. exact (Hwp j b e Hj Hin).
Qed.

(** What [batadv_dat_entry_add] does on a table with buckets whose entries
    are all referenced: it updates the entry found, or links a new one, or,
    when the allocation fails for an unknown address, changes nothing. *)
Lemma entry_add_live_shape (t : batadv_hashtable) (ip4 mac jiffies : Z)
    (kmalloc : bool) :
  t <> [] -> table_live t ->
  let r := batadv_dat_entry_add (Some t) ip4 mac jiffies kmalloc in
  (exists head i e0,
      first_live t ip4 head i e0 /\
      r = (Some (<[dat_index t ip4 := <[i := updated e0 mac jiffies]> head]> t),
           [])) \/
  (exists head,
      t !! dat_index t ip4 = Some head /\
      Forall (fun e => ip e <> ip4) head /\
      r = if kmalloc
          then (Some (<[dat_index t ip4 :=
                         fresh_entry ip4 mac jiffies :: head]> t), [])
          else (Some t, [])).
Proof.
  intros Hne Hlive. cbv zeta.
  destruct (entry_add_shape t ip4 mac jiffies kmalloc)
    as [E|[H|(head & Hb & Hno & -> & E)]].
  - destruct (batadv_dat_entry_hash_find (Some t) ip4) as [[[h e]|] hash']
      eqn:F.
    + left. unfold batadv_dat_entry_hash_find in F.
      destruct (t !! dat_index t ip4) as [head|] eqn:Hb; [|discriminate].
      destruct (hash_find_bucket ip4 head) as [[[i e']|] head'] eqn:Fb;
        [|discriminate].
      apply hash_find_bucket_found in Fb as (e0 & Hl & Hip & Hrc & _ & _ & Hsk).
      assert (Hfl : first_live t ip4 head i e0) by (unfold first_live; auto).
      exists head, i, e0. split; [exact Hfl|].
      now destruct (entry_add_known t ip4 mac jiffies kmalloc head i e0 Hfl).
    + right. pose proof F as F'. apply hash_find_not_found in F' as (-> & Hsk).
      destruct (lookup_lt_is_Some_2 t (dat_index t ip4)) as [head Hb];
        [now apply dat_index_lt|].
      specialize (Hsk head Hb).
      pose proof (Forall_lookup_1 _ _ _ _ Hlive Hb) as Hhead.
      pose proof (skipped_live_no_duplicate ip4 head Hsk Hhead) as Hnodup.
      exists head. split; [exact Hb|]. split.
      * rewrite List.Forall_forall in Hsk, Hhead. apply List.Forall_forall.
        intros e Hin. destruct (Hsk e Hin) as [N|Z0]; [exact N|].
        specialize (Hhead e Hin). lia.
      * unfold batadv_dat_entry_add. rewrite F. destruct kmalloc.
        -- exact (entry_add_new_links t ip4 mac jiffies head Hb Hnodup).
        -- reflexivity.
  - now left.
  - right. exists head. auto.
Qed.

(** [batadv_dat_entry_add] keeps the invariant; when the allocation
    succeeds the table then holds, where a lookup finds it, an entry of the
    address with the hardware address and the timestamp of the call. *)
Lemma entry_add_wf (t : batadv_hashtable) (ip4 mac jiffies : Z)
    (kmalloc : bool) :
  dat_wf t ->
  exists t',
    (batadv_dat_entry_add (Some t) ip4 mac jiffies kmalloc).1 = Some t' /\
    length t' = length t /\ dat_wf t' /\
    (kmalloc = true ->
     exists head i e,
       first_live t' ip4 head i e /\
       mac_addr e = mac /\ last_update e = jiffies).
Proof.
  intros (Hne & Hlive & Hwp & Huq).
  assert (Hne' : forall t' : batadv_hashtable,
             length t' = length t -> t' <> []).
  { intros t' Hlen ->. destruct t; [congruence | discriminate]. }
  destruct (entry_add_live_shape t ip4 mac jiffies kmalloc Hne Hlive)
    as [(head & i & e0 & Hfl & ->)|(head & Hb & Hno & ->)].
  - destruct (entry_add_known t ip4 mac jiffies kmalloc head i e0 Hfl)
      as (_ & Hfl' & _ & _).
    destruct Hfl as (Hb & Hl & Hip & Hrc & Hsk).
    pose proof (Forall_lookup_1 _ _ _ _ Hlive Hb) as Hhead.
    eexists. split; [reflexivity|]. split; [apply length_insert|].
    split; [|intros _; eexists _, _, _; split; [exact Hfl'|]; now split].
    split; [apply Hne', length_insert|]. split; [|split].
    + apply Forall_insert; [exact Hlive|].
      apply Forall_insert; [exact Hhead|].
      exact (Forall_lookup_1 _ _ _ _ Hhead Hl).
    + eapply well_placed_insert; [exact Hwp | exact Hb|].
      intros e Hin. apply In_insert in Hin as [->|Hin]; [|now left].
      right. simpl. apply (Hwp _ head e0 Hb).
      apply list_elem_of_In. eapply list_elem_of_lookup_2. exact Hl.
    + apply Forall_insert; [exact Huq|].
      rewrite (map_ip_insert head i e0) by (auto).
      exact (Forall_lookup_1 _ _ _ _ Huq Hb).
  - destruct kmalloc.
    + pose proof (Forall_lookup_1 _ _ _ _ Hlive Hb) as Hhead.
      eexists. split; [reflexivity|]. split; [apply length_insert|]. split.
      * split; [apply Hne', length_insert|]. split; [|split].
        -- apply Forall_insert; [exact Hlive|].
           constructor; [simpl; lia | exact Hhead].
        -- eapply well_placed_insert; [exact Hwp | exact Hb|].
           intros e [<-|Hin]; [now right | now left].
        -- apply Forall_insert; [exact Huq|]. simpl. constructor.
           ++ rewrite in_map_iff. intros (e & He & Hin).
              rewrite List.Forall_forall in Hno. exact (Hno e Hin He).
           ++ exact (Forall_lookup_1 _ _ _ _ Huq Hb).
      * intros _.
        exists (fresh_entry ip4 mac jiffies :: head), 0%nat,
          (fresh_entry ip4 mac jiffies).
        split; [|now split]. unfold first_live.
        rewrite (dat_index_length t) by apply length_insert.
        rewrite list_lookup_insert_eq by (eapply lookup_lt_Some; exact Hb).
        simpl. repeat split; try reflexivity; [lia | constructor].
    + exists t. repeat split; try assumption. discriminate.
Qed.

(** X2.  [batadv_dat_entry_add] keeps the invariant of the table: with
    buckets, every linked entry referenced and in the bucket of its address,
    and no address linked twice before the call, the same holds after it, and
    the number of buckets is unchanged. *)
Theorem entry_add_keeps_invariant (t : batadv_hashtable)
    (ip4 mac jiffies : Z) (kmalloc : bool) :
  dat_wf t ->
  exists t',
    (batadv_dat_entry_add (Some t) ip4 mac jiffies kmalloc).1 = Some t' /\
    length t' = length t /\ dat_wf t'.
Proof.
  intros Hwf.
  destruct (entry_add_wf t ip4 mac jiffies kmalloc Hwf)
    as (t' & E & Hlen & Hwf' & _).
  exists t'. auto.
Qed.

(** The theorem on a fresh table of two buckets. *)
Lemma entry_add_keeps_invariant_witness :
  exists t',
    (batadv_dat_entry_add (Some [[]; []]) 5 1 10 true).1 = Some t' /\
    length t' = 2%nat /\ dat_wf t'.
Proof.
  apply (entry_add_keeps_invariant [[]; []] 5 1 10 true).
  split; [discriminate|]. split; [repeat constructor|].
  split; [|repeat constructor].
  intros [|[|i]] head e Hb Hin; simpl in Hb; try discriminate;
    injection Hb as <-; destruct Hin.
Defined.

Lemma NoDup_map_filter {A B : Type} (f : A -> B) (keep : A -> bool)
    (l : list A) :
  List.NoDup (map f l) -> List.NoDup (map f (List.filter keep l)).
Proof.
  induction l as [|a l IH]; simpl; [auto|].
  rewrite List.NoDup_cons_iff. intros (Hnot & Hnd).
  destruct (keep a); simpl; [|auto].
  apply List.NoDup_cons; [|auto].
  rewrite in_map_iff in *. intros (b & Hb & Hin).
  apply Hnot. exists b. split; [exact Hb|].
  apply filter_In in Hin. tauto.
Qed.

Lemma filter_length_le {A : Type} (keep : A -> bool) (l : list A) :
  (length (List.filter keep l) <= length l)%nat.
Proof.
  induction l as [|a l IH]; simpl; [lia|]. destruct (keep a); simpl; lia.
Qed.

Lemma entry_count_filter (keep : batadv_dat_entry -> bool)
    (t : batadv_hashtable) :
  (entry_count (map (List.filter keep) t) <= entry_count t)%nat.
Proof.
  unfold entry_count. induction t as [|head t IH]; simpl; [lia|].
  rewrite !length_app. pose proof (filter_length_le keep head). lia.
Qed.

(** The table a purge leaves. *)
Lemma purge_table (t : batadv_hashtable)
    (to_purge : option (batadv_dat_entry -> bool)) :
  (__batadv_dat_purge (Some t) to_purge).1
  = Some (map (List.filter (fun e => negb (purged to_purge e))) t).
Proof.
  unfold __batadv_dat_purge. cbn [fst]. f_equal.
  rewrite map_map. apply map_ext. intros head. apply purge_bucket_kept.
Qed.

Lemma lookup_map {A B : Type} (f : A -> B) (l : list A) (i : nat) :
  map f l !! i = option_map f (l !! i).
Proof.
  revert i. induction l as [|a l IH]; intros [|i]; simpl; auto.
Qed.

Lemma purge_wf (t : batadv_hashtable)
    (to_purge : option (batadv_dat_entry -> bool)) :
  dat_wf t ->
  dat_wf (map (List.filter (fun e => negb (purged to_purge e))) t).
Proof.
  intros (Hne & Hlive & Hwp & Huq).
  set (keep := fun e => negb (purged to_purge e)).
  split; [|split; [|split]].
  - destruct t; [congruence | discriminate].
  - unfold table_live in *. apply List.Forall_map.
    eapply List.Forall_impl; [|exact Hlive]. intros head Hhead.
    apply List.Forall_forall. intros e Hin. apply filter_In in Hin as (Hin & _).
    rewrite List.Forall_forall in Hhead. auto.
  - intros i head e Hb Hin.
    rewrite (dat_index_length t) by apply length_map.
    rewrite lookup_map in Hb.
    destruct (t !! i) as [head0|] eqn:Hb0; [|discriminate].
    injection Hb as <-. apply filter_In in Hin as (Hin & _).
    exact (Hwp i head0 e Hb0 Hin).
  - unfold unique_keys in *. apply List.Forall_map.
    eapply List.Forall_impl; [|exact Huq]. intros head.
    apply NoDup_map_filter.
Qed.

(** X3.  A purge keeps the invariant of the table and the number of its
    buckets, and never adds an entry, whatever helper selects the entries. *)
Theorem purge_keeps_invariant (t : batadv_hashtable)
    (to_purge : option (batadv_dat_entry -> bool)) :
  dat_wf t ->
  exists t',
    (__batadv_dat_purge (Some t) to_purge).1 = Some t' /\
    length t' = length t /\ dat_wf t' /\
    (entry_count t' <= entry_count t)%nat.
Proof.
  intros Hwf.
  exists (map (List.filter (fun e => negb (purged to_purge e))) t).
  split; [apply purge_table|]. split; [apply length_map|].
  split; [now apply purge_wf | apply entry_count_filter].
Qed.

(** The theorem on a table of one bucket with one entry, for the purge
    without helper. *)
Lemma purge_keeps_invariant_witness :
  exists t',
    (__batadv_dat_purge
       (Some [[ {| ip := 5; mac_addr := 1; last_update := 0;
                   refcount := 1 |} ]]) None).1 = Some t' /\
    length t' = 1%nat /\ dat_wf t' /\ (entry_count t' <= 1)%nat.
Proof.
  apply (purge_keeps_invariant
           [[ {| ip := 5; mac_addr := 1; last_update := 0; refcount := 1 |} ]]
           None).
  split; [discriminate|]. split; [repeat constructor; simpl; lia|].
  split; [|repeat constructor; simpl; tauto].
  intros [|i] head e Hb Hin; simpl in Hb; [|discriminate].
  injection Hb as <-. destruct Hin as [<-|[]].
  vm_compute. reflexivity.
Defined.

(** ** Lookups on a table that satisfies the invariant *)

Lemma In_concat_bucket (t : batadv_hashtable) (e : batadv_dat_entry) :
  In e (concat t) <-> exists (i : nat) head, t !! i = Some head /\ In e head.
Proof.
  rewrite in_concat. split.
  - intros (head & Hhead & Hin).
    apply list_elem_of_In, list_elem_of_lookup_1 in Hhead as (i & Hi). eauto.
  - intros (i & head & Hi & Hin). exists head. split; [|exact Hin].
    apply list_elem_of_In. eapply list_elem_of_lookup_2. exact Hi.
Qed.

Lemma bucket_lookup_unique (head : list batadv_dat_entry)
    (e0 : batadv_dat_entry) :
  List.NoDup (map ip head) -> Forall (fun e => 0 < refcount e) head ->
  In e0 head -> bucket_lookup (ip e0) head = Some (acquired e0).
Proof.
  induction head as [|d head IH]; simpl; intros Hnd Hlive Hin; [destruct Hin|].
  apply List.NoDup_cons_iff in Hnd as (Hnot & Hnd).
  inversion Hlive as [|? ? Hd Hlive']; subst. clear Hlive.
  rewrite bucket_lookup_cons. destruct Hin as [->|Hin].
  - rewrite Z.eqb_refl. destruct (Z.eqb_spec (refcount e0) 0); [lia|].
    reflexivity.
  - destruct (Z.eqb_spec (ip d) (ip e0)) as [E|N]; [|now apply IH].
    exfalso. apply Hnot. rewrite E. now apply in_map.
Qed.

(** X4.  On a table that satisfies the invariant a lookup is complete and
    exact: every linked entry is found under its address, an address that no
    linked entry carries is not found, and whatever a lookup returns is a
    linked entry of that address with the reference of the reader added. *)
Theorem dat_lookup_finds_linked_entries (t : batadv_hashtable) :
  dat_wf t ->
  (forall e0,
      In e0 (concat t) -> dat_lookup (Some t) (ip e0) = Some (acquired e0)) /\
  (forall A,
      (forall e, In e (concat t) -> ip e <> A) ->
      dat_lookup (Some t) A = None) /\
  (forall A e,
      dat_lookup (Some t) A = Some e ->
      exists e0, In e0 (concat t) /\ ip e0 = A /\ e = acquired e0).
Proof.
  intros (Hne & Hlive & Hwp & Huq). split; [|split].
  - intros e0 Hin. apply In_concat_bucket in Hin as (i & head & Hb & Hin).
    rewrite dat_lookup_bucket, (Hwp i head e0 Hb Hin), Hb.
    apply bucket_lookup_unique; [| |exact Hin].
    + exact (Forall_lookup_1 _ _ _ _ Huq Hb).
    + exact (Forall_lookup_1 _ _ _ _ Hlive Hb).
  - intros A Hno. rewrite dat_lookup_bucket.
    destruct (t !! dat_index t A) as [head|] eqn:Hb; [|reflexivity].
    apply bucket_lookup_none, List.Forall_forall. intros e Hin. left.
    apply Hno, In_concat_bucket. eauto.
  - intros A e. rewrite dat_lookup_bucket.
    destruct (t !! dat_index t A) as [head|] eqn:Hb; [|discriminate].
    intros H. apply bucket_lookup_found in H as (i & e0 & Hl & Hip & _ & He & _).
    exists e0. split; [|auto]. apply In_concat_bucket.
    exists (dat_index t A), head. split; [exact Hb|].
    apply list_elem_of_In. eapply list_elem_of_lookup_2. exact Hl.
Qed.

(** The theorem on a table of one bucket with one entry. *)
Lemma dat_lookup_finds_linked_entries_witness :
  let e0 := {| ip := 5; mac_addr := 1; last_update := 0; refcount := 1 |} in
  dat_lookup (Some [[e0]]) 5 = Some (acquired e0).
Proof.
  intros e0.
  assert (Hwf : dat_wf [[e0]]).
  { split; [discriminate|]. split; [repeat constructor; simpl; lia|].
    split; [|repeat constructor; simpl; tauto].
    intros [|i] head e Hb Hin; simpl in Hb; [|discriminate].
    injection Hb as <-. destruct Hin as [<-|[]]. vm_compute. reflexivity. }
  destruct (dat_lookup_finds_linked_entries [[e0]] Hwf) as (Hfound & _).
  apply (Hfound e0). simpl. now left.
Defined.

(** ** Lookups after a purge *)

Lemma bucket_lookup_filter_kept (ip4 : Z) (keep : batadv_dat_entry -> bool)
    (head : list batadv_dat_entry) :
  forall (i : nat) (e0 : batadv_dat_entry),
    head !! i = Some e0 -> ip e0 = ip4 -> refcount e0 <> 0 ->
    Forall (skipped ip4) (take i head) -> keep e0 = true ->
    bucket_lookup ip4 (List.filter keep head) = Some (acquired e0).
Proof.
  induction head as [|d head IH]; intros [|i] e0 Hl Hip Hrc Hsk Hk;
    try discriminate; simpl in *.
  - injection Hl as ->. rewrite Hk, bucket_lookup_cons, Hip, Z.eqb_refl.
    destruct (Z.eqb_spec (refcount e0) 0); [contradiction | reflexivity].
  - inversion Hsk as [|? ? Hd Hsk']; subst.
    destruct (keep d); [rewrite bucket_lookup_skip by exact Hd|];
      now apply (IH i e0).
Qed.

Lemma bucket_lookup_filter_found (ip4 : Z) (keep : batadv_dat_entry -> bool)
    (head : list batadv_dat_entry) (e : batadv_dat_entry) :
  bucket_lookup ip4 (List.filter keep head) = Some e ->
  exists e0, In e0 head /\ keep e0 = true /\ ip e0 = ip4 /\ e = acquired e0.
Proof.
  intros H. apply bucket_lookup_found in H as (i & e0 & Hl & Hip & _ & He & _).
  apply list_elem_of_lookup_2, list_elem_of_In, filter_In in Hl as (Hin & Hk).
  exists e0. auto.
Qed.

(** An entry a lookup found before a purge, and that the helper spares, is
    what the lookup finds after the purge. *)
Lemma purge_lookup_kept (t : batadv_hashtable)
    (to_purge : option (batadv_dat_entry -> bool)) (A : Z)
    (head : list batadv_dat_entry) (i : nat) (e0 : batadv_dat_entry) :
  first_live t A head i e0 -> purged to_purge e0 = false ->
  dat_lookup (__batadv_dat_purge (Some t) to_purge).1 A = Some (acquired e0).
Proof.
  intros (Hb & Hl & Hip & Hrc & Hsk) Hk.
  rewrite purge_table, dat_lookup_bucket.
  rewrite (dat_index_length t) by apply length_map.
  rewrite lookup_map, Hb. simpl.
  apply (bucket_lookup_filter_kept A _ head i e0); auto.
  now rewrite Hk.
Qed.

(** X5.  After a purge a lookup never returns an entry the helper selected:
    what it returns is an entry that was linked before and that the helper
    spared.  An entry a lookup found before and that the helper spares is
    still what the lookup finds.  After a purge without helper no address is
    found. *)
Theorem purge_then_lookup (t : batadv_hashtable)
    (to_purge : option (batadv_dat_entry -> bool)) (A : Z) :
  let after := (__batadv_dat_purge (Some t) to_purge).1 in
  (forall e,
      dat_lookup after A = Some e ->
      exists e0,
        In e0 (concat t) /\ purged to_purge e0 = false /\
        ip e0 = A /\ e = acquired e0) /\
  (forall head i e0,
      first_live t A head i e0 -> purged to_purge e0 = false ->
      dat_lookup after A = Some (acquired e0)) /\
  dat_lookup (__batadv_dat_purge (Some t) None).1 A = None.
Proof.
  cbv zeta. rewrite !purge_table, !dat_lookup_bucket.
  split; [|split];
    rewrite (dat_index_length t) by apply length_map; rewrite lookup_map.
  - intros e. destruct (t !! dat_index t A) as [head|] eqn:Hb; [|discriminate].
    simpl. intros H.
    apply bucket_lookup_filter_found in H as (e0 & Hin & Hk & Hip & He).
    exists e0. split; [apply In_concat_bucket; eauto|].
    split; [now destruct (purged to_purge e0)|]. auto.
  - intros head i e0 Hfl Hk.
    pose proof (purge_lookup_kept t to_purge A head i e0 Hfl Hk) as H.
    rewrite purge_table, dat_lookup_bucket in H.
    rewrite (dat_index_length t) in H by apply length_map.
    now rewrite lookup_map in H.
  - destruct (t !! dat_index t A) as [head|]; [|reflexivity]. simpl.
    apply bucket_lookup_none, List.Forall_forall.
    intros e Hin. apply filter_In in Hin as (_ & Hk). discriminate.
Qed.

(** The theorem on a bucket with one entry that the helper spares. *)
Lemma purge_then_lookup_witness :
  let e0 := {| ip := 5; mac_addr := 1; last_update := 0; refcount := 1 |} in
  dat_lookup (__batadv_dat_purge (Some [[e0]]) (Some (fun _ => false))).1 5
  = Some (acquired e0).
Proof.
  intros e0.
  apply (purge_then_lookup [[e0]] (Some (fun _ => false)) 5) with [e0] 0%nat.
  - unfold first_live. split; [vm_compute; reflexivity|].
    split; [reflexivity|]. split; [reflexivity|].
    split; [discriminate | constructor].
  - reflexivity.
Defined.

(** ** An observation and the periodic purge *)

Lemma NoDup_map_eq {A B : Type} (f : A -> B) (l : list A) (a b : A) :
  List.NoDup (map f l) -> In a l -> In b l -> f a = f b -> a = b.
Proof.
  induction l as [|c l IH]; simpl; intros Hnd Ha Hb Hf; [destruct Ha|].
  apply List.NoDup_cons_iff in Hnd as (Hnot & Hnd).
  destruct Ha as [->|Ha], Hb as [->|Hb]; auto.
  - exfalso. apply Hnot. rewrite Hf. now apply in_map.
  - exfalso. apply Hnot. rewrite <- Hf. now apply in_map.
Qed.

(** X6.  On a table that satisfies the invariant, an address observed at
    time [j] with a successful allocation survives every periodic purge that
    runs no later than the timeout after [j], with the hardware address and
    the timestamp of the observation, and is gone after the first purge that
    runs later than that. *)
Theorem observation_lives_for_the_timeout (t : batadv_hashtable)
    (A H j j' timeout : Z) :
  dat_wf t ->
  let observed := (batadv_dat_entry_add (Some t) A H j true).1 in
  let after := (batadv_dat_purge timeout j' observed).1 in
  (j' - j <= timeout ->
   exists e,
     dat_lookup after A = Some e /\ mac_addr e = H /\ last_update e = j) /\
  (j' - j > timeout -> dat_lookup after A = None).
Proof.
  intros Hwf. cbv zeta.
  destruct (entry_add_wf t A H j true Hwf)
    as (t1 & -> & _ & (_ & _ & _ & Huq) & Hfound).
  destruct (Hfound eq_refl) as (head & i & e1 & Hfl & Hm & Hj).
  unfold batadv_dat_purge.
  set (p := Some (batadv_dat_to_purge timeout j')).
  assert (Hstale : purged p e1 = (j' - j >? timeout)).
  { unfold p, purged, batadv_dat_to_purge, batadv_has_timed_out.
    now rewrite Hj. }
  split; intros Hage.
  - exists (acquired e1). split; [|now split].
    apply (purge_lookup_kept t1 p A head i e1 Hfl).
    rewrite Hstale. destruct (Z.gtb_spec (j' - j) timeout); [lia|reflexivity].
  - rewrite purge_table, dat_lookup_bucket.
    rewrite (dat_index_length t1) by apply length_map.
    rewrite lookup_map. destruct Hfl as (Hb & Hl & Hip & _).
    rewrite Hb. simpl.
    apply bucket_lookup_none, List.Forall_forall.
    intros e Hin. apply filter_In in Hin as (Hin & Hk). left. intros He.
    assert (e = e1).
    { apply (NoDup_map_eq ip head); [| exact Hin | | congruence].
      - exact (Forall_lookup_1 _ _ _ _ Huq Hb).
      - apply list_elem_of_In. eapply list_elem_of_lookup_2. exact Hl. }
    subst e. change (negb (purged p e1) = true) in Hk. rewrite Hstale in Hk.
    destruct (Z.gtb_spec (j' - j) timeout); [discriminate | lia].
Qed.

(** A table of empty buckets satisfies the invariant. *)
Lemma dat_wf_empty (n : nat) : n <> 0%nat -> dat_wf (replicate n []).
Proof.
  intros Hn. split; [|split; [|split]].
  - destruct n; [congruence | discriminate].
  - apply Forall_replicate. constructor.
  - intros i head e Hb Hin. apply lookup_replicate in Hb as (-> & _).
    destruct Hin.
  - apply Forall_replicate. constructor.
Qed.

(** The theorem on a fresh table of two buckets: observed at time 10, the
    address is still found after the purge that runs at time 15 with a
    timeout of 100. *)
Lemma observation_lives_for_the_timeout_witness :
  exists e,
    dat_lookup
      (batadv_dat_purge 100 15
         (batadv_dat_entry_add (Some [[]; []]) 5 1 10 true).1).1 5 = Some e /\
    mac_addr e = 1 /\ last_update e = 10.
Proof.
  apply (observation_lives_for_the_timeout [[]; []] 5 1 10 15 100).
  - apply (dat_wf_empty 2). discriminate.
  - lia.
Defined.

(** ** What a purge hands to [kfree_rcu] *)

Lemma purge_bucket_freed (to_purge : option (batadv_dat_entry -> bool))
    (head : list batadv_dat_entry) :
  (purge_bucket to_purge head).2
  = map (fun e => set_refcount e 0)
      (List.filter (fun e => purged to_purge e && (refcount e =? 1)) head).
Proof.
  induction head as [|e rest IH]; [reflexivity|]. simpl.
  destruct (purge_bucket to_purge rest) as [kept freed]. simpl in IH.
  assert (E : (refcount e - 1 =? 0) = (refcount e =? 1)).
  { destruct (Z.eqb_spec (refcount e - 1) 0), (Z.eqb_spec (refcount e) 1);
      auto; lia. }
  unfold purged at 1. destruct to_purge as [f|]; simpl.
  - destruct (f e); simpl; [|exact IH].
    rewrite E. destruct (Z.eqb_spec (refcount e) 1) as [E1|N1]; simpl;
      [|exact IH].
    rewrite IH. f_equal. unfold set_refcount. simpl. f_equal. lia.
  - rewrite E. destruct (Z.eqb_spec (refcount e) 1) as [E1|N1]; simpl;
      [|exact IH].
    rewrite IH. f_equal. unfold set_refcount. simpl. f_equal. lia.
Qed.

Lemma purge_freed (t : batadv_hashtable)
    (to_purge : option (batadv_dat_entry -> bool)) :
  (__batadv_dat_purge (Some t) to_purge).2
  = concat
      (map (fun head =>
              map (fun e => set_refcount e 0)
                (List.filter
                   (fun e => purged to_purge e && (refcount e =? 1)) head))
         t).
Proof.
  unfold __batadv_dat_purge. cbn [snd]. f_equal.
  rewrite map_map. apply map_ext. intros head. apply purge_bucket_freed.
Qed.

(** X7.  A purge hands to [kfree_rcu] exactly the entries it unlinks whose
    counter was 1, in the order of the scan and with the counter at 0: an
    unlinked entry that a reader still references is not freed by the purge,
    and no entry the helper spares is freed. *)
Theorem purge_frees_unreferenced_entries (t : batadv_hashtable)
    (to_purge : option (batadv_dat_entry -> bool)) :
  let freed := (__batadv_dat_purge (Some t) to_purge).2 in
  freed
  = concat
      (map (fun head =>
              map (fun e => set_refcount e 0)
                (List.filter
                   (fun e => purged to_purge e && (refcount e =? 1)) head))
         t) /\
  forall e,
    In e freed <->
    exists e0,
      In e0 (concat t) /\ purged to_purge e0 = true /\ refcount e0 = 1 /\
      e = set_refcount e0 0.
Proof.
  cbv zeta. split; [apply purge_freed|].
  intros e. rewrite purge_freed, in_concat. split.
  - intros (l & Hl & Hin).
    apply in_map_iff in Hl as (head & <- & Hhead).
    apply in_map_iff in Hin as (e0 & <- & Hin).
    apply filter_In in Hin as (Hin & Hsel).
    apply andb_true_iff in Hsel as (Hp & H1).
    exists e0. split; [apply in_concat; eauto|].
    split; [exact Hp|]. split; [lia | reflexivity].
  - intros (e0 & Hin & Hp & H1 & ->).
    apply in_concat in Hin as (head & Hhead & Hin).
    eexists. split; [apply in_map_iff; exists head; eauto|].
    apply in_map_iff. exists e0. split; [reflexivity|].
    apply filter_In. split; [exact Hin|]. rewrite Hp, H1. reflexivity.
Qed.

(** ** Purging twice *)

Lemma purge_bucket_again (to_purge : option (batadv_dat_entry -> bool))
    (head : list batadv_dat_entry) :
  purge_bucket to_purge
    (List.filter (fun e => negb (purged to_purge e)) head)
  = (List.filter (fun e => negb (purged to_purge e)) head, []).
Proof.
  induction head as [|e rest IH]; [reflexivity|]. simpl.
  destruct (purged to_purge e) eqn:P; simpl; [exact IH|].
  rewrite IH. unfold purged in P. destruct to_purge as [f|]; [|discriminate].
  now rewrite P.
Qed.

(** X8.  Purging again with the same helper changes nothing: the second
    purge returns the table the first one left and frees no entry. *)
Theorem purge_twice (t : batadv_hashtable)
    (to_purge : option (batadv_dat_entry -> bool)) :
  __batadv_dat_purge (__batadv_dat_purge (Some t) to_purge).1 to_purge
  = ((__batadv_dat_purge (Some t) to_purge).1, []).
Proof.
  rewrite purge_table. unfold __batadv_dat_purge.
  rewrite !map_map.
  assert (E : forall l : batadv_hashtable,
             map (fun head =>
                    purge_bucket to_purge
                      (List.filter (fun e => negb (purged to_purge e)) head)) l
             = map (fun head =>
                      (List.filter (fun e => negb (purged to_purge e)) head,
                       @nil batadv_dat_entry)) l).
  { intros l. apply map_ext. intros head. apply purge_bucket_again. }
  f_equal.
  - f_equal. rewrite <- (map_map _ fst), E, map_map. reflexivity.
  - rewrite <- (map_map _ snd), E, map_map. simpl.
    induction t as [|head t IH]; [reflexivity | exact IH].
Qed.

(** ** Releasing the handle of a lookup *)

(** X9.  A lookup followed by the release of the handle it returned leaves
    the table exactly as it was before the lookup, and frees nothing. *)
Theorem lookup_then_release (t : batadv_hashtable) (ip4 : Z)
    (h : dat_handle) (e : batadv_dat_entry) (t' : batadv_hashtable) :
  batadv_dat_entry_hash_find (Some t) ip4 = (Some (h, e), Some t') ->
  entry_at t' h = Some e /\ free_ref_at t' h = (t, []).
Proof.
  unfold batadv_dat_entry_hash_find.
  destruct (t !! dat_index t ip4) as [head|] eqn:Hb; [|discriminate].
  destruct (hash_find_bucket ip4 head) as [[[i e']|] head'] eqn:F;
    [|discriminate].
  intros [= <- <- <-].
  apply hash_find_bucket_found in F as (e0 & Hl & Hip & Hrc & -> & -> & _).
  assert (Hidx : (dat_index t ip4 < length t)%nat)
    by (eapply lookup_lt_Some; exact Hb).
  assert (Hi : (i < length head)%nat) by (eapply lookup_lt_Some; exact Hl).
  assert (Hat : entry_at (<[dat_index t ip4 := <[i := acquired e0]> head]> t)
                  (dat_index t ip4, i) = Some (acquired e0)).
  { unfold entry_at. cbn [fst snd].
    rewrite list_lookup_insert_eq by exact Hidx.
    now rewrite list_lookup_insert_eq by exact Hi. }
  split; [exact Hat|].
  unfold free_ref_at. rewrite Hat.
  unfold batadv_dat_entry_free_ref, store_at. cbn [fst snd].
  assert (Eback : set_refcount (acquired e0) (refcount (acquired e0) - 1) = e0).
  { destruct e0 as [a m l r]. unfold acquired, set_refcount. simpl.
    f_equal. lia. }
  rewrite Eback.
  destruct (Z.eqb_spec (refcount e0) 0); [contradiction|].
  rewrite alter_insert_eq, list_insert_insert_eq.
  rewrite (list_insert_id head i e0 Hl).
  now rewrite (list_insert_id t _ head Hb).
Qed.

(** The theorem on a table of one bucket with one entry. *)
Lemma lookup_then_release_witness :
  let t := [[ {| ip := 5; mac_addr := 1; last_update := 0; refcount := 1 |} ]] in
  let e := {| ip := 5; mac_addr := 1; last_update := 0; refcount := 2 |} in
  entry_at [[e]] (0%nat, 0%nat) = Some e /\
  free_ref_at [[e]] (0%nat, 0%nat) = (t, []).
Proof.
  intros t e. apply (lookup_then_release t 5). vm_compute. reflexivity.
Defined.

(** ** Initialisation and teardown *)

Lemma dat_lookup_empty_buckets (n : nat) (A : Z) :
  dat_lookup (Some (replicate n [])) A = None.
Proof.
  rewrite dat_lookup_bucket.
  destruct (replicate n [] !! _) as [head|] eqn:Hb; [|reflexivity].
  now apply lookup_replicate in Hb as (-> & _).
Qed.

(** X10.  [batadv_dat_init] leaves a state that already has a table alone,
    timer included, and answers 0.  Without a table, a failed allocation
    answers [-ENOMEM] and neither builds a table nor queues the purge; a
    successful one answers 0, queues the purge in 10 seconds and installs a
    table of 1024 buckets that satisfies the invariant, holds no entry and
    finds no address.  A second call after a successful one changes
    nothing. *)
Theorem dat_init_builds_an_empty_table (dat : batadv_priv_dat)
    (kmalloc kmalloc' : bool) :
  (forall t, hash dat = Some t -> batadv_dat_init dat kmalloc = (0, dat)) /\
  (hash dat = None ->
   batadv_dat_init dat false = (-12, {| hash := None; work := work dat |})) /\
  (hash dat = None ->
   exists t,
     batadv_dat_init dat true = (0, {| hash := Some t; work := Some 10000 |}) /\
     length t = 1024%nat /\ dat_wf t /\ entry_count t = 0%nat /\
     forall A, dat_lookup (Some t) A = None) /\
  ((batadv_dat_init dat kmalloc).1 = 0 ->
   batadv_dat_init (batadv_dat_init dat kmalloc).2 kmalloc'
   = (0, (batadv_dat_init dat kmalloc).2)).
Proof.
  unfold batadv_dat_init, batadv_hash_new, batadv_dat_start_timer.
  split; [|split; [|split]].
  - now intros t ->.
  - now intros ->.
  - intros ->. exists (replicate 1024 []). cbn [hash work].
    split; [reflexivity|]. split; [apply length_replicate|].
    split; [apply dat_wf_empty; discriminate|].
    split; [|intros A; apply dat_lookup_empty_buckets].
    unfold entry_count. generalize 1024%nat.
    induction n as [|n IH]; [reflexivity | exact IH].
  - destruct (hash dat) as [t|] eqn:Hh.
    + cbn [fst snd]. now rewrite Hh.
    + destruct kmalloc; cbn [fst snd hash]; [reflexivity|].
      unfold ENOMEM. discriminate.
Qed.

(** The theorem on the state before the first initialisation. *)
Lemma dat_init_builds_an_empty_table_witness :
  exists t,
    batadv_dat_init {| hash := None; work := None |} true
    = (0, {| hash := Some t; work := Some 10000 |}) /\
    length t = 1024%nat /\ dat_wf t /\ entry_count t = 0%nat /\
    forall A, dat_lookup (Some t) A = None.
Proof.
  apply (dat_init_builds_an_empty_table {| hash := None; work := None |}
           true true).
  reflexivity.
Defined.

(** X11.  The teardown of a state that has a table takes the purge off the
    queue and the table away, and hands to [kfree_rcu] exactly the linked
    entries whose counter was 1; an entry a reader still references is
    unlinked and left to that reader.  Afterwards no address is found, the
    periodic purge finds nothing to do, and an observation changes nothing
    and discards the entry it built. *)
Theorem dat_free_unlinks_everything (dat : batadv_priv_dat)
    (t : batadv_hashtable) :
  hash dat = Some t ->
  let after := (batadv_dat_free dat).1 in
  after = {| hash := None; work := None |} /\
  (forall e,
      In e (batadv_dat_free dat).2 <->
      exists e0, In e0 (concat t) /\ refcount e0 = 1 /\ e = set_refcount e0 0) /\
  (forall A, dat_lookup (hash after) A = None) /\
  (forall timeout jiffies,
      batadv_dat_purge timeout jiffies (hash after) = (None, [])) /\
  (forall A mac jiffies kmalloc,
      batadv_dat_entry_add (hash after) A mac jiffies kmalloc
      = (None,
         if kmalloc
         then [{| ip := A; mac_addr := mac; last_update := jiffies;
                  refcount := 0 |}]
         else [])).
Proof.
  intros Hh. cbv zeta.
  unfold batadv_dat_free, batadv_dat_hash_free. cbn [hash work].
  rewrite Hh.
  destruct (__batadv_dat_purge (Some t) None) as [hash' freed] eqn:P.
  cbn [fst snd hash].
  split; [reflexivity|]. split; [|split; [|split]].
  - intros e.
    assert (freed = (__batadv_dat_purge (Some t) None).2) as ->
        by now rewrite P.
    rewrite purge_freed, in_concat. split.
    + intros (l & Hl & Hin).
      apply in_map_iff in Hl as (head & <- & Hhead).
      apply in_map_iff in Hin as (e0 & <- & Hin).
      apply filter_In in Hin as (Hin & Hsel). cbn [purged andb] in Hsel.
      exists e0. split; [apply in_concat; eauto|]. split; [lia | reflexivity].
    + intros (e0 & Hin & H1 & ->).
      apply in_concat in Hin as (head & Hhead & Hin).
      eexists. split; [apply in_map_iff; exists head; eauto|].
      apply in_map_iff. exists e0. split; [reflexivity|].
      apply filter_In. split; [exact Hin|]. cbn [purged andb]. lia.
  - reflexivity.
  - reflexivity.
  - intros A mac jiffies kmalloc. now destruct kmalloc.
Qed.

(** The theorem on a table that links one entry a reader holds and one
    nobody holds: only the second is freed. *)
Lemma dat_free_unlinks_everything_witness :
  let held_entry :=
    {| ip := 5; mac_addr := 1; last_update := 0; refcount := 2 |} in
  let idle_entry :=
    {| ip := 6; mac_addr := 2; last_update := 0; refcount := 1 |} in
  let dat := {| hash := Some [[held_entry; idle_entry]]; work := Some 10000 |} in
  (batadv_dat_free dat).1 = {| hash := None; work := None |} /\
  (batadv_dat_free dat).2 = [set_refcount idle_entry 0].
Proof.
  intros held_entry idle_entry dat.
  split; [|reflexivity].
  apply (dat_free_unlinks_everything dat [[held_entry; idle_entry]]).
  reflexivity.
Defined.

(** * Further properties of the selection *)

(** ** What a scan finds *)

Lemma held_nonneg (cands : list batadv_dat_candidate) (x : Z) :
  0 <= held cands x.
Proof.
  induction cands as [|c rest IH]; simpl; [lia|].
  destruct (is_found c && (node_ptr (orig_node c) =? x)); lia.
Qed.

Lemma held_by_nonneg (o : option batadv_orig_node) (x : Z) : 0 <= held_by o x.
Proof. destruct o as [m|]; simpl; [destruct (node_ptr m =? x)|]; lia. Qed.

(** The two outcomes of one turn of the scan that does not read through
    NULL: the node is passed over, or it becomes the round maximum. *)
Lemma scan_node_cases (cands : list batadv_dat_candidate) (select : nat)
    (ip_key last_max : Z) (st st' : scan_state) (node : batadv_orig_node) :
  scan_node cands select ip_key last_max st node = Ok st' ->
  (st' = st /\
   (batadv_is_orig_node_eligible cands select (dat_distance ip_key node)
      (max st) last_max node (max_orig_node st) = Ok false \/
    refs st (node_ptr node) = 0)) \/
  (batadv_is_orig_node_eligible cands select (dat_distance ip_key node)
     (max st) last_max node (max_orig_node st) = Ok true /\
   max st' = dat_distance ip_key node /\ max_orig_node st' = Some node).
Proof.
  unfold scan_node.
  destruct (batadv_is_orig_node_eligible _ _ _ _ _ _ _) as [[|]|] eqn:El;
    simpl; try discriminate.
  - unfold atomic_inc_not_zero.
    destruct (Z.eqb_spec (refs st (node_ptr node)) 0) as [Z0|NZ].
    + intros [= <-]. left. auto.
    + intros [= <-]. right. auto.
  - intros [= <-]. left. auto.
Qed.

(** Why the eligibility check turns a node down. *)
Lemma eligible_false (res : list batadv_dat_candidate) (select : nat)
    (tmp_max mx last_max : Z) (candidate : batadv_orig_node)
    (mo : option batadv_orig_node) :
  batadv_is_orig_node_eligible res select tmp_max mx last_max candidate mo
    = Ok false ->
  ~ fresh_for (take select res) candidate \/ tmp_max > last_max \/
  tmp_max < mx \/ (tmp_max = mx /\ mo <> None).
Proof.
  unfold batadv_is_orig_node_eligible, fresh_for.
  destruct (existsb _ _) eqn:Ex.
  { intros _. left. intros Hfresh.
    apply existsb_exists in Ex as (c & Hin & Hc).
    rewrite List.Forall_forall in Hfresh. specialize (Hfresh c Hin). lia. }
  destruct (Z.gtb_spec tmp_max last_max); [intros _; right; left; lia|].
  destruct (Z.ltb_spec tmp_max mx); [intros _; right; right; left; lia|].
  destruct (Z.eqb_spec tmp_max mx); [|discriminate].
  destruct mo; [|discriminate]. intros _. right; right; right. split; congruence.
Qed.

Section ScanRoundMore.

Variables (cands : list batadv_dat_candidate) (select : nat).
Variables (ip_key last_max : Z) (refs0 : refcounts).
Variable nodes : list batadv_orig_node.

Local Abbreviation inv := (scan_inv cands select ip_key last_max refs0).

Lemma scan_node_more (st st' : scan_state) (node : batadv_orig_node) :
  inv st -> scan_inv_more nodes st -> In node nodes ->
  scan_node cands select ip_key last_max st node = Ok st' ->
  scan_inv_more nodes st'.
Proof.
  intros (Hmax & Hm & _) Hmore Hin H.
  apply scan_node_cases in H as [(-> & _)|(El & Hmax' & Hnode')];
    [exact Hmore|].
  unfold scan_inv_more. rewrite Hnode', Hmax'. split; [|exact Hin].
  pose proof El as El'. apply eligible_true in El' as (_ & _ & Hge).
  destruct (Z.eq_dec (dat_distance ip_key node) (max st)) as [E|N]; [|lia].
  unfold batadv_is_orig_node_eligible in El.
  destruct (existsb _ _); [discriminate|].
  destruct (_ >? last_max); [discriminate|].
  destruct (_ <? max st); [discriminate|].
  rewrite E, Z.eqb_refl in El.
  unfold scan_inv_more in Hmore.
  destruct (max_orig_node st); [|discriminate]. lia.
Qed.

Lemma scan_node_grows (st st' : scan_state) (node : batadv_orig_node) :
  scan_node cands select ip_key last_max st node = Ok st' ->
  max st <= max st' /\ (max_orig_node st <> None -> max_orig_node st' <> None).
Proof.
  intros H.
  apply scan_node_cases in H as [(-> & _)|(El & Hmax' & Hnode')];
    [split; [lia | auto]|].
  apply eligible_true in El as (_ & _ & Hge).
  rewrite Hmax', Hnode'. split; [lia | discriminate].
Qed.

Lemma scan_node_best (st st' : scan_state) (node : batadv_orig_node) :
  inv st ->
  scan_node cands select ip_key last_max st node = Ok st' ->
  fresh_for (take select cands) node ->
  dat_distance ip_key node <= last_max -> 0 < refs0 (node_ptr node) ->
  covers ip_key st' node.
Proof.
  intros (Hmax & Hm & Hrefs) H Hfresh Hle Hlive. unfold covers.
  pose proof (dat_distance_range ip_key node) as Hd.
  apply scan_node_cases in H as [(-> & [El|Z0])|(El & Hmax' & Hnode')].
  - apply eligible_false in El as [Hn|[Hgt|[Hlt|(He & Hsome)]]];
      [contradiction | lia | | split; [exact Hsome | lia]].
    split; [|lia]. destruct (max_orig_node st); [discriminate | lia].
  - rewrite Hrefs in Z0.
    pose proof (held_by_nonneg (max_orig_node st) (node_ptr node)). lia.
  - rewrite Hmax', Hnode'. split; [discriminate | lia].
Qed.

Lemma covers_grows (st st' : scan_state) (n : batadv_orig_node) :
  max st <= max st' ->
  (max_orig_node st <> None -> max_orig_node st' <> None) ->
  covers ip_key st n -> covers ip_key st' n.
Proof. unfold covers. intros Hle Hsome (Hn & Hd). split; [auto | lia]. Qed.

(** What the scan of a list of nodes secures, bucket by bucket. *)
Lemma scan_bucket_more (head : list batadv_orig_node) :
  (forall n, In n head -> In n nodes) ->
  forall st st',
    inv st -> scan_inv_more nodes st ->
    scan_bucket cands select ip_key last_max head st = Ok st' ->
    scan_inv_more nodes st' /\ max st <= max st' /\
    (max_orig_node st <> None -> max_orig_node st' <> None) /\
    forall n,
      In n head -> fresh_for (take select cands) n ->
      dat_distance ip_key n <= last_max -> 0 < refs0 (node_ptr n) ->
      covers ip_key st' n.
Proof.
  induction head as [|node rest IH]; simpl; intros Hsub st st' Inv Hmore H.
  - injection H as <-. split; [exact Hmore|]. split; [lia|].
    split; [auto|]. intros n [].
  - destruct (scan_node cands select ip_key last_max st node)
      as [st1|] eqn:E; simpl in H; [|discriminate].
    pose proof (scan_node_inv _ _ _ _ _ _ _ _ Inv E) as Inv1.
    pose proof (scan_node_more _ _ _ Inv Hmore (Hsub node (or_introl eq_refl)) E)
      as Hmore1.
    pose proof (scan_node_grows _ _ _ E) as (Hle1 & Hsome1).
    destruct (IH (fun n Hn => Hsub n (or_intror Hn)) st1 st' Inv1 Hmore1 H)
      as (Hmore' & Hle' & Hsome' & Hbest).
    split; [exact Hmore'|]. split; [lia|]. split; [auto|].
    intros n [<-|Hin] Hfresh Hd Hlive; [|now apply Hbest].
    apply (covers_grows st1); [exact Hle' | exact Hsome'|].
    now apply (scan_node_best st).
Qed.

Lemma scan_table_more (table : list (list batadv_orig_node)) :
  (forall n, In n (concat table) -> In n nodes) ->
  forall st st',
    inv st -> scan_inv_more nodes st ->
    scan_table cands select ip_key last_max table st = Ok st' ->
    scan_inv_more nodes st' /\ max st <= max st' /\
    (max_orig_node st <> None -> max_orig_node st' <> None) /\
    forall n,
      In n (concat table) -> fresh_for (take select cands) n ->
      dat_distance ip_key n <= last_max -> 0 < refs0 (node_ptr n) ->
      covers ip_key st' n.
Proof.
  induction table as [|head rest IH]; simpl; intros Hsub st st' Inv Hmore H.
  - injection H as <-. split; [exact Hmore|]. split; [lia|].
    split; [auto|]. intros n [].
  - destruct (scan_bucket cands select ip_key last_max head st)
      as [st1|] eqn:E; simpl in H; [|discriminate].
    pose proof (scan_bucket_inv _ _ _ _ _ _ _ _ Inv E) as Inv1.
    destruct (scan_bucket_more head
                (fun n Hn => Hsub n (proj2 (in_app_iff _ _ _) (or_introl Hn)))
                st st1 Inv Hmore E) as (Hmore1 & Hle1 & Hsome1 & Hbest1).
    destruct (IH (fun n Hn => Hsub n (proj2 (in_app_iff _ _ _) (or_intror Hn)))
                st1 st' Inv1 Hmore1 H) as (Hmore' & Hle' & Hsome' & Hbest).
    split; [exact Hmore'|]. split; [lia|]. split; [auto|].
    intros n Hin Hfresh Hd Hlive. apply in_app_iff in Hin as [Hin|Hin].
    + apply (covers_grows st1); [exact Hle' | exact Hsome'|].
      now apply Hbest1.
    + now apply Hbest.
Qed.

End ScanRoundMore.

(** ** What the rounds secure *)

Lemma fresh_for_take_S (cands cands' : list batadv_dat_candidate)
    (select : nat) (n : batadv_orig_node) :
  take select cands' = take select cands ->
  fresh_for (take (S select) cands') n -> fresh_for (take select cands) n.
Proof.
  intros <-. unfold fresh_for. rewrite !Forall_lookup.
  intros H i c Hc. apply (H i).
  apply lookup_take_Some in Hc as (Hc & Hi).
  rewrite lookup_take_lt by lia. exact Hc.
Qed.

(** One round keeps [round_inv_more]. *)
Lemma choose_next_candidate_more (orig_hash : list (list batadv_orig_node))
    (ip_key : Z) (refs0 : refcounts) (select : nat) (s s' : select_state) :
  (select < length (sel_cands s))%nat ->
  round_inv ip_key refs0 select s ->
  round_inv_more (concat orig_hash) ip_key refs0 select s ->
  batadv_choose_next_candidate orig_hash select ip_key s = Ok s' ->
  round_inv_more (concat orig_hash) ip_key refs0 (S select) s'.
Proof.
  intros Hlen (Hlm & Hfar & Hord & Hrefs)
         (Hreg & Hnear & Hzero & Hpre & Hfirst).
  unfold batadv_choose_next_candidate.
  set (cands0 := set_type (sel_cands s) select BATADV_DAT_CANDIDATE_NOT_FOUND).
  destruct (scan_table _ _ _ _ _ _) as [st|] eqn:Scan; simpl; [|discriminate].
  intros [= <-].
  assert (Inv0 : scan_inv cands0 select ip_key (sel_last_max s) (sel_refs s)
            {| max := 0; max_orig_node := None; refs := sel_refs s |}).
  { repeat split; simpl; try lia. }
  pose proof (scan_table_inv _ _ _ _ _ _ _ _ Inv0 Scan) as (Hmax & Hm & Hst).
  destruct (scan_table_more cands0 select ip_key (sel_last_max s) (sel_refs s)
              (concat orig_hash) orig_hash (fun n Hn => Hn) _ _ Inv0 I Scan)
    as (Hmore & _ & _ & Hbest).
  assert (Take0 : take select cands0 = take select (sel_cands s))
    by apply set_type_take.
  assert (Old0 : forall i : nat, (i < select)%nat ->
            cands0 !! i = sel_cands s !! i).
  { intros i Hi. apply set_type_lookup_ne. lia. }
  assert (Len0 : length cands0 = length (sel_cands s))
    by apply set_type_length.
  destruct (lookup_lt_is_Some_2 cands0 select) as [c0 Hc0]; [lia|].
  assert (Nf0 : is_found c0 = false).
  { unfold is_found. now rewrite (set_type_lookup_eq _ _ _ _ Hc0). }
  assert (Near : forall n, In n (concat orig_hash) -> 0 < refs0 (node_ptr n) ->
            fresh_for (take select (sel_cands s)) n ->
            covers ip_key st n).
  { intros n Hin Hlive Hfresh. apply Hbest; [exact Hin | | |].
    - now rewrite Take0.
    - now apply Hnear.
    - rewrite Hrefs.
      pose proof (held_nonneg (take select (sel_cands s)) (node_ptr n)). lia. }
  unfold scan_inv_more in Hmore.
  destruct (max_orig_node st) as [m|] eqn:Em; simpl.
  - destruct Hmore as (Hpos & Hin). destruct Hm as (Hdist & Hfresh).
    set (cm := {| type := BATADV_DAT_CANDIDATE_ORIG; orig_node := m |}).
    assert (Old : forall i : nat, (i < select)%nat ->
              <[select := cm]> cands0 !! i = sel_cands s !! i).
    { intros i Hi. rewrite list_lookup_insert_ne by lia. now apply Old0. }
    assert (New : <[select := cm]> cands0 !! select = Some cm)
      by (apply list_lookup_insert_eq; lia).
    assert (Take : take select (<[select := cm]> cands0)
                   = take select (sel_cands s)).
    { rewrite take_insert_ge by lia. exact Take0. }
    unfold round_inv_more; simpl. split; [|split; [|split; [|split]]].
    + intros i c Hi Hc Fc.
      destruct (decide (i = select)) as [->|Ni].
      * rewrite New in Hc. injection Hc as <-. simpl. split; [exact Hin | lia].
      * rewrite Old in Hc by lia. apply (Hreg i c); [lia | exact Hc | exact Fc].
    + intros n Hn Hlive Hfresh'.
      apply (fresh_for_take_S (sel_cands s)) in Hfresh'; [|exact Take].
      now destruct (Near n Hn Hlive Hfresh').
    + intros i c Hi Hc Fc.
      destruct (decide (i = select)) as [->|Ni].
      * rewrite New in Hc. injection Hc as <-. discriminate.
      * rewrite Old in Hc by lia.
        specialize (Hzero i c ltac:(lia) Hc Fc). lia.
    + intros i j ci cj Hij Hj Hi Hcj Fi.
      rewrite Old in Hi by lia.
      destruct (decide (j = select)) as [->|Nj].
      * specialize (Hzero i ci ltac:(lia) Hi Fi). lia.
      * rewrite Old in Hcj by lia.
        apply (Hpre i j ci cj); [exact Hij | lia | exact Hi | exact Hcj
                                | exact Fi].
    + intros n _ Hn Hlive.
      destruct (decide (select = 0%nat)) as [->|Ns].
      * exists cm. split; [exact New|]. split; [reflexivity|]. simpl.
        destruct (Near n Hn Hlive) as (_ & Hd); [constructor | lia].
      * rewrite Old by lia. apply Hfirst; [lia | exact Hn | exact Hlive].
  - unfold round_inv_more; simpl. split; [|split; [|split; [|split]]].
    + intros i c Hi Hc Fc.
      destruct (decide (i = select)) as [->|Ni].
      * rewrite Hc0 in Hc. injection Hc as <-. congruence.
      * rewrite Old0 in Hc by lia. apply (Hreg i c); [lia | exact Hc | exact Fc].
    + intros n Hn Hlive Hfresh'.
      apply (fresh_for_take_S (sel_cands s)) in Hfresh'; [|exact Take0].
      now destruct (Near n Hn Hlive Hfresh') as (Habs & _).
    + intros _ _ _ _ _. exact Hm.
    + intros i j ci cj Hij Hj Hi Hcj Fi.
      rewrite Old0 in Hi by lia.
      destruct (decide (j = select)) as [->|Nj].
      * rewrite Hc0 in Hcj. injection Hcj as <-. exact Nf0.
      * rewrite Old0 in Hcj by lia.
        apply (Hpre i j ci cj); [exact Hij | lia | exact Hi | exact Hcj
                                | exact Fi].
    + intros n _ Hn Hlive.
      destruct (decide (select = 0%nat)) as [->|Ns].
      * destruct (Near n Hn Hlive) as (Habs & _); [constructor | congruence].
      * rewrite Old0 by lia. apply Hfirst; [lia | exact Hn | exact Hlive].
Qed.

Lemma select_rounds_more (orig_hash : list (list batadv_orig_node))
    (ip_key : Z) (refs0 : refcounts) (rounds : nat) :
  forall (select : nat) (s s' : select_state),
    (select + rounds <= length (sel_cands s))%nat ->
    round_inv ip_key refs0 select s ->
    round_inv_more (concat orig_hash) ip_key refs0 select s ->
    select_rounds orig_hash ip_key rounds select s = Ok s' ->
    round_inv_more (concat orig_hash) ip_key refs0 (select + rounds) s'.
Proof.
  induction rounds as [|rounds IH]; simpl; intros select s s' Hlen Inv More H.
  - injection H as <-. now rewrite Nat.add_0_r.
  - destruct (batadv_choose_next_candidate orig_hash select ip_key s)
      as [s1|] eqn:E; simpl in H; [|discriminate].
    assert (Hsel : (select < length (sel_cands s))%nat) by lia.
    destruct (choose_next_candidate_inv _ _ refs0 _ _ _ Hsel Inv E)
      as (Inv1 & L1).
    pose proof (choose_next_candidate_more _ _ _ _ _ _ Hsel Inv More E)
      as More1.
    assert (Hlen1 : (S select + rounds <= length (sel_cands s1))%nat) by lia.
    replace (select + S rounds)%nat with (S select + rounds)%nat by lia.
    exact (IH (S select) s1 s' Hlen1 Inv1 More1 H).
Qed.

Lemma round_inv_more_init (nodes : list batadv_orig_node) (ip_key : Z)
    (refs0 : refcounts) (res : list batadv_dat_candidate) :
  round_inv_more nodes ip_key refs0 0
    {| sel_cands := res; sel_last_max := BATADV_DAT_ADDR_MAX;
       sel_refs := refs0 |}.
Proof.
  unfold round_inv_more; simpl.
  split; [intros; lia|]. split; [|repeat split; intros; lia].
  intros n _ _ _. pose proof (dat_distance_range ip_key n).
  unfold BATADV_DAT_ADDR_MAX in *. lia.
Qed.

(** What a returned candidate array satisfies, all invariants together. *)
Lemma select_candidates_more
    (table : list (list batadv_orig_node))
    (garbage : nat -> batadv_dat_candidate) (ip_dst : Z)
    (refs0 refs' : refcounts) (cands : list batadv_dat_candidate) :
  batadv_dat_select_candidates (Some table) (Some garbage) ip_dst refs0
    = Ok (Some cands, refs') ->
  length cands = BATADV_DAT_CANDIDATES_NUM /\
  exists last_max,
    round_inv (dat_ip_key ip_dst) refs0 BATADV_DAT_CANDIDATES_NUM
      {| sel_cands := cands; sel_last_max := last_max; sel_refs := refs' |} /\
    round_inv_more (concat table) (dat_ip_key ip_dst) refs0
      BATADV_DAT_CANDIDATES_NUM
      {| sel_cands := cands; sel_last_max := last_max; sel_refs := refs' |}.
Proof.
  unfold batadv_dat_select_candidates.
  destruct (select_rounds _ _ _ _ _) as [s|] eqn:E; simpl; [|discriminate].
  intros [= <- <-].
  set (s0 := {| sel_cands := kmalloc_array garbage BATADV_DAT_CANDIDATES_NUM;
                sel_last_max := BATADV_DAT_ADDR_MAX; sel_refs := refs0 |}) in *.
  assert (Hlen : (0 + BATADV_DAT_CANDIDATES_NUM <= length (sel_cands s0))%nat).
  { unfold s0; cbn [sel_cands]. rewrite kmalloc_array_length. lia. }
  destruct (select_rounds_inv _ _ refs0 _ _ _ _ Hlen
              (round_inv_init _ _ _) E) as (Inv & L).
  pose proof (select_rounds_more _ _ refs0 _ _ _ _ Hlen
                (round_inv_init _ _ _) (round_inv_more_init _ _ _ _) E) as More.
  split.
  { rewrite L. unfold s0; cbn [sel_cands]. apply kmalloc_array_length. }
  exists (sel_last_max s). destruct s; split; assumption.
Qed.

(** The references of an array whose found slots point to distinct nodes:
    one on a node some found slot points to, none on any other. *)
Lemma held_once (cands : list batadv_dat_candidate) (x : Z) :
  (forall (i j : nat) (ci cj : batadv_dat_candidate),
      (i < j)%nat -> cands !! i = Some ci -> cands !! j = Some cj ->
      is_found ci = true -> is_found cj = true ->
      node_ptr (orig_node ci) <> node_ptr (orig_node cj)) ->
  held cands x =
    if existsb (fun c => is_found c && (node_ptr (orig_node c) =? x)) cands
    then 1 else 0.
Proof.
  induction cands as [|c rest IH]; intros Hd; [reflexivity|].
  assert (Hrest : forall (i j : nat) (ci cj : batadv_dat_candidate),
             (i < j)%nat -> rest !! i = Some ci -> rest !! j = Some cj ->
             is_found ci = true -> is_found cj = true ->
             node_ptr (orig_node ci) <> node_ptr (orig_node cj)).
  { intros i j ci cj Hij Hi Hj. apply (Hd (S i) (S j)); [lia | exact Hi | exact Hj]. }
  cbn [held existsb].
  destruct (is_found c && (node_ptr (orig_node c) =? x)) eqn:T; cbn [orb].
  - apply andb_true_iff in T as (Fc & Ec). apply Z.eqb_eq in Ec.
    enough (held rest x = 0) by lia.
    clear IH Hrest.
    assert (Hno : Forall (fun c' => is_found c' && (node_ptr (orig_node c') =? x)
                                    = false) rest).
    { apply Forall_lookup. intros j cj Hj.
      destruct (is_found cj) eqn:Fj; [|reflexivity]. cbn [andb].
      apply Z.eqb_neq. intros Ej.
      apply (Hd 0%nat (S j) c cj); [lia | reflexivity | exact Hj | exact Fc
                                   | exact Fj | congruence]. }
    clear Hd. induction Hno as [|c' rest' Hc' _ IH']; [reflexivity|].
    cbn [held]. rewrite Hc'. lia.
  - rewrite (IH Hrest). lia.
Qed.

(** X12.  Of the nodes of the registry with a positive counter, the selection
    returns those with the greatest ring distance values: slot 0 is found as
    soon as the registry holds such a node and lies at least as far as every
    one of them, and a node that no slot of the returned array points to lies
    no farther than any found slot. *)
Theorem select_candidates_takes_the_farthest
    (table : list (list batadv_orig_node))
    (garbage : nat -> batadv_dat_candidate) (ip_dst : Z)
    (refs0 refs' : refcounts) (cands : list batadv_dat_candidate)
    (Hsel : batadv_dat_select_candidates (Some table) (Some garbage) ip_dst
              refs0 = Ok (Some cands, refs')) :
  (forall n,
      In n (concat table) -> 0 < refs0 (node_ptr n) ->
      exists c, cands !! 0%nat = Some c /\ is_found c = true /\
                dat_distance (dat_ip_key ip_dst) n
                  <= dat_distance (dat_ip_key ip_dst) (orig_node c)) /\
  (forall n (i : nat) (c : batadv_dat_candidate),
      In n (concat table) -> 0 < refs0 (node_ptr n) -> fresh_for cands n ->
      cands !! i = Some c -> is_found c = true ->
      dat_distance (dat_ip_key ip_dst) n
        <= dat_distance (dat_ip_key ip_dst) (orig_node c)).
Proof.
  destruct (select_candidates_more _ _ _ _ _ _ Hsel)
    as (Hlen & last_max & (Hlm & Hfar & _ & _)
        & (_ & Hnear & _ & _ & Hfirst)).
  cbn [sel_cands sel_last_max] in *. split.
  - intros n Hn Hlive. apply Hfirst; [|exact Hn | exact Hlive].
    unfold BATADV_DAT_CANDIDATES_NUM. lia.
  - intros n i c Hn Hlive Hfresh Hc Fc.
    assert (Hi : (i < BATADV_DAT_CANDIDATES_NUM)%nat).
    { rewrite <- Hlen. eapply lookup_lt_Some. exact Hc. }
    specialize (Hfar i c Hi Hc Fc).
    rewrite take_ge in Hnear by lia.
    specialize (Hnear n Hn Hlive Hfresh). lia.
Qed.

Lemma select_candidates_takes_the_farthest_witness :
  exists cands refs',
    batadv_dat_select_candidates (Some example_registry) (Some blank_memory) 1
      (fun _ => 1) = Ok (Some cands, refs') /\
    forall n,
      In n (concat example_registry) ->
      exists c, cands !! 0%nat = Some c /\ is_found c = true /\
                dat_distance (dat_ip_key 1) n
                  <= dat_distance (dat_ip_key 1) (orig_node c).
Proof.
  destruct (select_candidates_answers example_registry blank_memory 1
              (fun _ => 1)) as (cands & refs' & E).
  { repeat constructor; vm_compute; discriminate. }
  exists cands, refs'. split; [exact E|].
  destruct (select_candidates_takes_the_farthest example_registry blank_memory
              1 (fun _ => 1) refs' cands E) as (Hfirst & _).
  intros n Hn. apply (Hfirst n Hn). lia.
Defined.

(** X13.  Every found slot of the returned array holds a node of the registry,
    never what the fresh memory held, and never a node at distance 0; and the
    found slots come first: after a slot left not found every later slot is
    left not found. *)
Theorem select_candidates_found_slots
    (table : list (list batadv_orig_node))
    (garbage : nat -> batadv_dat_candidate) (ip_dst : Z)
    (refs0 refs' : refcounts) (cands : list batadv_dat_candidate)
    (Hsel : batadv_dat_select_candidates (Some table) (Some garbage) ip_dst
              refs0 = Ok (Some cands, refs')) :
  (forall (i : nat) (c : batadv_dat_candidate),
      cands !! i = Some c -> is_found c = true ->
      In (orig_node c) (concat table) /\
      0 < dat_distance (dat_ip_key ip_dst) (orig_node c)) /\
  (forall (i j : nat) (ci cj : batadv_dat_candidate),
      (i < j)%nat -> cands !! i = Some ci -> cands !! j = Some cj ->
      is_found ci = false -> is_found cj = false).
Proof.
  destruct (select_candidates_more _ _ _ _ _ _ Hsel)
    as (Hlen & last_max & _ & (Hreg & _ & _ & Hpre & _)).
  cbn [sel_cands] in *. split.
  - intros i c Hc Fc. apply (Hreg i c); [|exact Hc | exact Fc].
    rewrite <- Hlen. eapply lookup_lt_Some. exact Hc.
  - intros i j ci cj Hij Hi Hj Fi.
    apply (Hpre i j ci cj); [exact Hij | | exact Hi | exact Hj | exact Fi].
    rewrite <- Hlen. eapply lookup_lt_Some. exact Hj.
Qed.

Lemma select_candidates_found_slots_witness :
  exists cands refs',
    batadv_dat_select_candidates (Some example_registry) (Some blank_memory) 1
      (fun _ => 1) = Ok (Some cands, refs') /\
    forall (i : nat) (c : batadv_dat_candidate),
      cands !! i = Some c -> is_found c = true ->
      In (orig_node c) (concat example_registry) /\
      0 < dat_distance (dat_ip_key 1) (orig_node c).
Proof.
  destruct (select_candidates_answers example_registry blank_memory 1
              (fun _ => 1)) as (cands & refs' & E).
  { repeat constructor; vm_compute; discriminate. }
  exists cands, refs'. split; [exact E|].
  destruct (select_candidates_found_slots example_registry blank_memory
              1 (fun _ => 1) refs' cands E) as (Hreg & _).
  exact Hreg.
Defined.

(** X14.  The selection takes exactly one reference on each node it returns:
    the counter of a node that some found slot points to is one above its
    value at the call, every other counter is as at the call; when no array
    is returned no counter has changed. *)
Theorem select_candidates_takes_one_reference
    (orig_hash : option (list (list batadv_orig_node)))
    (kmalloc : option (nat -> batadv_dat_candidate)) (ip_dst : Z)
    (refs0 refs' : refcounts) (res : option (list batadv_dat_candidate))
    (Hsel : batadv_dat_select_candidates orig_hash kmalloc ip_dst refs0
              = Ok (res, refs')) :
  match res with
  | Some cands =>
      forall x,
        refs' x = refs0 x +
          if existsb (fun c => is_found c && (node_ptr (orig_node c) =? x))
               cands
          then 1 else 0
  | None => refs' = refs0
  end.
Proof.
  destruct res as [cands|].
  - destruct (select_candidates_inv _ _ _ _ _ _ Hsel) as (Hlen & Hord & Hrefs).
    intros x. rewrite Hrefs. f_equal. apply held_once.
    intros i j ci cj Hij Hi Hj Fi Fj.
    apply (Hord i j ci cj); [exact Hij | | exact Hi | exact Hj | exact Fi
                            | exact Fj].
    rewrite <- Hlen. eapply lookup_lt_Some. exact Hj.
  - unfold batadv_dat_select_candidates in Hsel.
    destruct orig_hash as [table|]; [|congruence].
    destruct kmalloc as [garbage|]; [|congruence].
    destruct (select_rounds _ _ _ _ _); simpl in Hsel; discriminate.
Qed.

Lemma select_candidates_takes_one_reference_witness :
  exists cands refs',
    batadv_dat_select_candidates (Some example_registry) (Some blank_memory) 1
      (fun _ => 1) = Ok (Some cands, refs') /\
    forall x,
      refs' x = 1 +
        if existsb (fun c => is_found c && (node_ptr (orig_node c) =? x)) cands
        then 1 else 0.
Proof.
  destruct (select_candidates_answers example_registry blank_memory 1
              (fun _ => 1)) as (cands & refs' & E).
  { repeat constructor; vm_compute; discriminate. }
  exists cands, refs'. split; [exact E|].
  exact (select_candidates_takes_one_reference (Some example_registry)
           (Some blank_memory) 1 (fun _ => 1) refs' (Some cands) E).
Defined.

(** X15.  With a registry of one node, at a distance other than 0 and with a
    positive counter, the selection returns that node in slot 0, leaves
    every other slot not found, and has raised the counter of the node by
    one and no other counter. *)
Theorem select_candidates_single_node (n : batadv_orig_node)
    (garbage : nat -> batadv_dat_candidate) (ip_dst : Z) (refs0 : refcounts)
    (Hdist : dat_distance (dat_ip_key ip_dst) n <> 0)
    (Hlive : 0 < refs0 (node_ptr n)) :
  exists cands refs',
    batadv_dat_select_candidates (Some [[n]]) (Some garbage) ip_dst refs0
      = Ok (Some cands, refs') /\
    cands !! 0%nat
      = Some {| type := BATADV_DAT_CANDIDATE_ORIG; orig_node := n |} /\
    (forall (i : nat) (c : batadv_dat_candidate),
        (0 < i)%nat -> cands !! i = Some c -> is_found c = false) /\
    forall x, refs' x = refs0 x + if node_ptr n =? x then 1 else 0.
Proof.
  destruct (select_candidates_answers [[n]] garbage ip_dst refs0)
    as (cands & refs' & E).
  { repeat constructor. exact Hdist. }
  exists cands, refs'. split; [exact E|].
  destruct (select_candidates_more _ _ _ _ _ _ E)
    as (Hlen & last_max & (_ & _ & Hord & Hrefs)
        & (Hreg & _ & _ & _ & Hfirst)).
  cbn [sel_cands sel_refs] in *.
  destruct (Hfirst n) as (c0 & Hc0 & F0 & _);
    [unfold BATADV_DAT_CANDIDATES_NUM; lia | simpl; auto | exact Hlive |].
  assert (Hone : forall (i : nat) (c : batadv_dat_candidate),
             cands !! i = Some c -> is_found c = true -> orig_node c = n).
  { intros i c Hc Fc.
    destruct (Hreg i c) as (Hin & _); [|exact Hc | exact Fc|].
    - rewrite <- Hlen. eapply lookup_lt_Some. exact Hc.
    - simpl in Hin. destruct Hin as [<-|[]]. reflexivity. }
  assert (E0 : c0 = {| type := BATADV_DAT_CANDIDATE_ORIG; orig_node := n |}).
  { pose proof (Hone 0%nat c0 Hc0 F0) as Hn. destruct c0 as [ty o].
    simpl in Hn. subst o. unfold is_found in F0. simpl in F0.
    destruct ty; [discriminate | reflexivity]. }
  assert (Hrest : forall (i : nat) (c : batadv_dat_candidate),
             (0 < i)%nat -> cands !! i = Some c -> is_found c = false).
  { intros i c Hi Hc. destruct (is_found c) eqn:Fc; [|reflexivity].
    exfalso.
    destruct (Hord 0%nat i c0 c) as (Hne & _);
      [exact Hi | | exact Hc0 | exact Hc | exact F0 | exact Fc |].
    - rewrite <- Hlen. eapply lookup_lt_Some. exact Hc.
    - rewrite (Hone 0%nat c0 Hc0 F0), (Hone i c Hc Fc) in Hne. congruence. }
  split; [now rewrite Hc0, E0|]. split; [exact Hrest|].
  intros x. rewrite Hrefs, take_ge by lia.
  destruct cands as [|c rest]; [discriminate|].
  simpl in Hc0. injection Hc0 as ->.
  cbn [held]. rewrite F0, (Hone 0%nat c0 eq_refl F0). cbn [andb].
  rewrite held_not_found; [lia|].
  apply Forall_lookup. intros j cj Hj. apply (Hrest (S j) cj); [lia | exact Hj].
Qed.

Lemma select_candidates_single_node_witness :
  exists cands refs',
    batadv_dat_select_candidates
      (Some [[ {| node_ptr := 1; orig := 1; dat_addr := 10 |} ]])
      (Some blank_memory) 1 (fun _ => 1) = Ok (Some cands, refs') /\
    cands !! 0%nat
      = Some {| type := BATADV_DAT_CANDIDATE_ORIG;
                orig_node := {| node_ptr := 1; orig := 1; dat_addr := 10 |} |} /\
    (forall (i : nat) (c : batadv_dat_candidate),
        (0 < i)%nat -> cands !! i = Some c -> is_found c = false) /\
    forall x, refs' x = 1 + if 1 =? x then 1 else 0.
Proof.
  apply (select_candidates_single_node
           {| node_ptr := 1; orig := 1; dat_addr := 10 |} blank_memory 1
           (fun _ => 1)).
  - vm_compute. discriminate.
  - lia.
Defined.

(** * Further properties of the dissemination *)

(** The transmissions of one turn: the one the turn makes, for a found slot
    whose next hop resolved with a counter other than 0 and whose buffer was
    prepared, besides those made before. *)
Lemma send_to_candidate_transmits (C : collaborators) (i : nat)
    (c : batadv_dat_candidate) (st : send_state) (neigh_refs0 : refcounts) :
  (forall x, neigh_refs st x = neigh_refs0 x) ->
  forall (j : nat) (neigh s : Z),
    In (Transmit j neigh s) (events (send_to_candidate C i c st)) <->
    In (Transmit j neigh s) (events st) \/
    (j = i /\ is_found c = true /\
     router C i (orig_node c) = Some neigh /\ neigh_refs0 neigh <> 0 /\
     batadv_unicast_4addr_prepare_skb C i (pskb_copy C i) (orig_node c)
       = true /\
     s = batadv_send_skb_packet C i neigh).
Proof.
  intros Hn j neigh s.
  unfold send_to_candidate, is_found, batadv_orig_node_get_router,
    atomic_inc_not_zero.
  destruct (type c); [split; [tauto | intros [H|(_ & H & _)]; [exact H | discriminate]]|].
  destruct (router C i (orig_node c)) as [nb|] eqn:R.
  2: { cbn [events]. rewrite in_app_iff. simpl.
       split; [intros [H|[H|[]]]; [now left | discriminate]
              | intros [H|(_ & _ & H & _)]; [now left | discriminate]]. }
  rewrite Hn.
  destruct (Z.eqb_spec (neigh_refs0 nb) 0) as [Z0|NZ].
  { cbn [events]. rewrite in_app_iff. simpl.
    split; [intros [H|[H|[]]]; [now left | discriminate]|].
    intros [H|(_ & _ & H & H' & _)]; [now left|]. congruence. }
  destruct (batadv_unicast_4addr_prepare_skb C i (pskb_copy C i) (orig_node c))
    eqn:P; cbn [negb events]; rewrite in_app_iff; simpl.
  - split.
    + intros [H|[H|[H|[H|[H|[]]]]]]; try discriminate; [now left|].
      injection H as <- <- <-. right. repeat split; auto.
    + intros [H|(-> & _ & H & _ & _ & ->)]; [now left|].
      injection H as <-. right. do 3 right. left. reflexivity.
  - split.
    + intros [H|[H|[H|[H|[]]]]]; try discriminate. now left.
    + intros [H|(_ & _ & _ & _ & H & _)]; [now left | discriminate].
Qed.

Lemma send_loop_transmits (C : collaborators) (neigh_refs0 : refcounts)
    (cand : list batadv_dat_candidate) :
  forall (i : nat) (st : send_state),
    (forall x, neigh_refs st x = neigh_refs0 x) ->
    forall (j : nat) (neigh s : Z),
      In (Transmit j neigh s) (events (send_loop C i cand st)) <->
      In (Transmit j neigh s) (events st) \/
      exists c,
        (i <= j)%nat /\ cand !! (j - i)%nat = Some c /\ is_found c = true /\
        router C j (orig_node c) = Some neigh /\ neigh_refs0 neigh <> 0 /\
        batadv_unicast_4addr_prepare_skb C j (pskb_copy C j) (orig_node c)
          = true /\
        s = batadv_send_skb_packet C j neigh.
Proof.
  induction cand as [|c rest IH]; intros i st Hn j neigh s; cbn [send_loop].
  - split; [now left|]. intros [H|(c & _ & H & _)]; [exact H | discriminate].
  - assert (Hn1 : forall x,
              neigh_refs (send_to_candidate C i c st) x = neigh_refs0 x).
    { intros x. destruct (send_to_candidate_spec C i c st) as (H & _).
      rewrite H. apply Hn. }
    rewrite (IH (S i) _ Hn1), (send_to_candidate_transmits C i c st _ Hn).
    split.
    + intros [[H|(-> & F & R & NZ & P & ->)]|(c' & Hij & Hc' & Rest)].
      * now left.
      * right. exists c. rewrite Nat.sub_diag. repeat split; auto.
      * right. exists c'. split; [lia|]. split; [|exact Rest].
        replace (j - i)%nat with (S (j - S i)) by lia. exact Hc'.
    + intros [H|(c' & Hij & Hc' & F & R & NZ & P & ->)]; [now left; left|].
      destruct (decide (j = i)) as [->|Nj].
      * rewrite Nat.sub_diag in Hc'. injection Hc' as <-.
        left. right. repeat split; auto.
      * right. exists c'. split; [lia|].
        replace (j - i)%nat with (S (j - S i)) in Hc' by lia.
        repeat split; auto.
Qed.



(** X17.  Without a registry, when the allocation of the candidate array
    fails, or with a registry that holds no node, [batadv_dat_send_data]
    returns false, calls none of its collaborators and leaves every counter
    as it was. *)
Theorem send_data_without_candidates (C : collaborators)
    (orig_hash : option (list (list batadv_orig_node)))
    (kmalloc : option (nat -> batadv_dat_candidate)) (ip4 : Z)
    (orig_refs0 neigh_refs0 : refcounts)
    (Hnone : orig_hash = None \/ kmalloc = None \/
             exists table, orig_hash = Some table /\
                           Forall (fun head => head = []) table) :
  exists st,
    batadv_dat_send_data C orig_hash kmalloc ip4 orig_refs0 neigh_refs0
      = Ok st /\
    ret st = false /\ events st = [] /\
    (forall x, orig_refs st x = orig_refs0 x) /\ neigh_refs st = neigh_refs0.
Proof.
  destruct kmalloc as [garbage|].
  2: { exists {| ret := false; orig_refs := orig_refs0;
                 neigh_refs := neigh_refs0; events := [] |}.
       unfold batadv_dat_send_data, batadv_dat_select_candidates.
       destruct orig_hash; repeat split; reflexivity. }
  destruct Hnone as [->|[Habs|(table & -> & Hempty)]]; [|discriminate|].
  - exists {| ret := false; orig_refs := orig_refs0;
              neigh_refs := neigh_refs0; events := [] |}.
    repeat split; reflexivity.
  - destruct (select_candidates_empty table garbage ip4 orig_refs0 Hempty)
      as (cands & Sel & Hnf).
    apply (send_data_no_candidate C _ _ _ _ neigh_refs0 cands orig_refs0 Sel).
    now apply found_slots_nil.
Qed.

Lemma send_data_without_candidates_witness :
  exists st,
    batadv_dat_send_data example_collaborators (Some [[]; []])
      (Some blank_memory) 1 (fun _ => 1) (fun _ => 1) = Ok st /\
    ret st = false /\ events st = [] /\
    (forall x, orig_refs st x = 1) /\ neigh_refs st = (fun _ => 1).
Proof.
  apply (send_data_without_candidates example_collaborators (Some [[]; []])
           (Some blank_memory) 1 (fun _ => 1) (fun _ => 1)).
  right; right. exists [[]; []]. split; [reflexivity|].
  repeat constructor.
Defined.

(** * Further properties of the periodic worker *)

Lemma dat_lookup_found_first_live (t : batadv_hashtable) (ip4 : Z)
    (e : batadv_dat_entry) :
  dat_lookup (Some t) ip4 = Some e ->
  exists head i e0, first_live t ip4 head i e0 /\ e = acquired e0.
Proof.
  rewrite dat_lookup_bucket.
  destruct (t !! dat_index t ip4) as [head|] eqn:Hb; [|discriminate].
  intros H. apply bucket_lookup_found in H as (i & e0 & Hi & Hip & Hr & -> & Hs).
  exists head, i, e0. split; [|reflexivity]. repeat split; assumption.
Qed.

(** What one run of the worker does to the answer of a lookup. *)
Lemma purge_run_lookup (t : batadv_hashtable) (timeout jiffies ip4 : Z) :
  dat_wf t ->
  dat_lookup (batadv_dat_purge timeout jiffies (Some t)).1 ip4
  = match dat_lookup (Some t) ip4 with
    | Some e =>
        if jiffies - last_update e >? timeout then None else Some e
    | None => None
    end.
Proof.
  intros (_ & _ & _ & Huq). unfold batadv_dat_purge.
  set (p := Some (batadv_dat_to_purge timeout jiffies)).
  destruct (dat_lookup (Some t) ip4) as [e|] eqn:L.
  - apply dat_lookup_found_first_live in L as (head & i & e0 & Hfl & ->).
    assert (Hstale : purged p e0 = (jiffies - last_update e0 >? timeout)).
    { reflexivity. }
    change (last_update (acquired e0)) with (last_update e0).
    destruct (jiffies - last_update e0 >? timeout) eqn:St.
    + rewrite purge_table, dat_lookup_bucket.
      rewrite (dat_index_length t) by apply length_map.
      rewrite lookup_map. destruct Hfl as (Hb & Hl & Hip & _).
      rewrite Hb. cbn [option_map fmap option_fmap].
      apply bucket_lookup_none, List.Forall_forall.
      intros e Hin. apply filter_In in Hin as (Hin & Hk). left. intros He.
      assert (e = e0).
      { apply (NoDup_map_eq ip head); [| exact Hin | | congruence].
        - exact (Forall_lookup_1 _ _ _ _ Huq Hb).
        - apply list_elem_of_In. eapply list_elem_of_lookup_2. exact Hl. }
      subst e. change (negb (purged p e0) = true) in Hk.
      rewrite Hstale in Hk. discriminate.
    + apply (purge_lookup_kept t p ip4 head i e0 Hfl). now rewrite Hstale.
  - rewrite purge_table, dat_lookup_bucket.
    rewrite (dat_index_length t) by apply length_map.
    rewrite lookup_map. rewrite dat_lookup_bucket in L.
    destruct (t !! dat_index t ip4) as [head|]; [|reflexivity].
    cbn [option_map fmap option_fmap].
    apply bucket_lookup_none in L. apply bucket_lookup_none.
    apply List.Forall_forall. intros e Hin.
    apply filter_In in Hin as (Hin & _).
    rewrite List.Forall_forall in L. now apply L.
Qed.

Lemma purge_runs_work (timeout : Z) (clock : list Z) :
  forall dat,
    clock <> [] -> work (purge_runs timeout clock dat) = Some 10000.
Proof.
  induction clock as [|j later IH]; intros dat Hne; [congruence|].
  cbn [purge_runs].
  destruct later as [|j' later'].
  - unfold batadv_dat_purge_work.
    destruct (batadv_dat_purge timeout j (hash dat)). reflexivity.
  - apply IH. discriminate.
Qed.

Lemma purge_runs_lookup (timeout : Z) (clock : list Z) :
  forall dat t,
    hash dat = Some t -> dat_wf t ->
    exists t',
      hash (purge_runs timeout clock dat) = Some t' /\ dat_wf t' /\
      length t' = length t /\
      forall ip4,
        dat_lookup (Some t') ip4
        = match dat_lookup (Some t) ip4 with
          | Some e =>
              if forallb (fun j => negb (j - last_update e >? timeout)) clock
              then Some e else None
          | None => None
          end.
Proof.
  induction clock as [|j later IH]; intros dat t Ht Hwf; cbn [purge_runs].
  - exists t. split; [exact Ht|]. split; [exact Hwf|]. split; [reflexivity|].
    intros ip4. cbn [forallb]. now destruct (dat_lookup (Some t) ip4).
  - pose proof (purge_table t (Some (batadv_dat_to_purge timeout j))) as Hp.
    set (t1 := map (List.filter
                      (fun e => negb (purged
                         (Some (batadv_dat_to_purge timeout j)) e))) t) in *.
    assert (Ht1 : hash (batadv_dat_purge_work timeout j dat).1 = Some t1).
    { unfold batadv_dat_purge_work. rewrite Ht.
      unfold batadv_dat_purge in *.
      destruct (__batadv_dat_purge (Some t) _) as [h freed] eqn:E.
      cbn [fst] in *. exact Hp. }
    assert (Hwf1 : dat_wf t1) by now apply purge_wf.
    destruct (IH _ t1 Ht1 Hwf1) as (t' & Ht' & Hwf' & Hlen & Hlook).
    exists t'. split; [exact Ht'|]. split; [exact Hwf'|].
    split; [rewrite Hlen; apply length_map|].
    intros ip4. rewrite Hlook.
    pose proof (purge_run_lookup t timeout j ip4 Hwf) as Hrun.
    unfold batadv_dat_purge in Hrun. rewrite Hp in Hrun. rewrite Hrun.
    destruct (dat_lookup (Some t) ip4) as [e|]; [|reflexivity].
    cbn [forallb]. destruct (j - last_update e >? timeout); reflexivity.
Qed.

(** X18.  Over any number of runs of the periodic worker a lookup answers what
    it answered before, as long as no run came more than the timeout after
    the last update of the entry; from the first such run on it answers
    nothing. The runs keep the table, its number of buckets and its
    invariant, and each of them re-queues the worker 10000 ms later. *)
Theorem worker_runs_only_expire (timeout : Z) (clock : list Z)
    (dat : batadv_priv_dat) (t : batadv_hashtable)
    (Ht : hash dat = Some t) (Hwf : dat_wf t) :
  let dat' := purge_runs timeout clock dat in
  (clock <> [] -> work dat' = Some 10000) /\
  exists t',
    hash dat' = Some t' /\ dat_wf t' /\ length t' = length t /\
    forall ip4,
      dat_lookup (Some t') ip4
      = match dat_lookup (Some t) ip4 with
        | Some e =>
            if forallb (fun j => j - last_update e <=? timeout) clock
            then Some e else None
        | None => None
        end.
Proof.
  cbv zeta. split; [apply purge_runs_work|].
  destruct (purge_runs_lookup timeout clock dat t Ht Hwf)
    as (t' & Ht' & Hwf' & Hlen & Hlook).
  exists t'. split; [exact Ht'|]. split; [exact Hwf'|]. split; [exact Hlen|].
  intros ip4. rewrite Hlook.
  destruct (dat_lookup (Some t) ip4) as [e|]; [|reflexivity].
  replace (forallb (fun j => negb (j - last_update e >? timeout)) clock)
    with (forallb (fun j => j - last_update e <=? timeout) clock);
    [reflexivity|].
  clear. induction clock as [|j later IH]; [reflexivity|].
  cbn [forallb]. rewrite IH, Z.gtb_ltb, Z.leb_antisym. reflexivity.
Qed.

Lemma worker_runs_only_expire_witness :
  let e0 := {| ip := 5; mac_addr := 1; last_update := 0; refcount := 1 |} in
  let dat := {| hash := Some [[e0]]; work := None |} in
  let dat' := purge_runs 300 [100; 200] dat in
  work dat' = Some 10000 /\
  exists t',
    hash dat' = Some t' /\ dat_wf t' /\ length t' = 1%nat /\
    forall ip4,
      dat_lookup (Some t') ip4
      = match dat_lookup (Some [[e0]]) ip4 with
        | Some e =>
            if forallb (fun j => j - last_update e <=? 300) [100; 200]
            then Some e else None
        | None => None
        end.
Proof.
  intros e0 dat.
  assert (Hwf : dat_wf [[e0]]).
  { split; [discriminate|]. split; [repeat constructor; simpl; lia|].
    split; [|repeat constructor; simpl; tauto].
    intros [|i] head e Hb Hin; simpl in Hb; [|discriminate].
    injection Hb as <-. destruct Hin as [<-|[]]. vm_compute. reflexivity. }
  pose proof (worker_runs_only_expire 300 [100; 200] dat [[e0]] eq_refl Hwf)
    as H.
  cbv zeta in *. destruct H as (Hwork & Hrest).
  split; [apply Hwork; discriminate | exact Hrest].
Defined.

(** * Further properties of the references of the cache *)

(** X19.  [batadv_dat_entry_add] hands to [kfree_rcu] nothing but the entry it
    allocated itself, and that only when it could not link it because a
    released entry of the same address is still in the bucket; the table is
    then as before. Every entry linked after the call is the new entry with
    counter 1, or has the address and the counter of an entry linked in the
    same bucket before. *)
Theorem entry_add_frees_only_its_own_entry (t : batadv_hashtable)
    (ip4 mac jiffies : Z) (kmalloc : bool) (Hne : t <> []) :
  let r := batadv_dat_entry_add (Some t) ip4 mac jiffies kmalloc in
  (forall e,
      In e r.2 ->
      e = {| ip := ip4; mac_addr := mac; last_update := jiffies;
             refcount := 0 |} /\
      r.1 = Some t /\ kmalloc = true /\
      exists head e0,
        t !! dat_index t ip4 = Some head /\ In e0 head /\
        ip e0 = ip4 /\ refcount e0 = 0) /\
  exists t',
    r.1 = Some t' /\
    forall (i : nat) head' e',
      t' !! i = Some head' -> In e' head' ->
      e' = fresh_entry ip4 mac jiffies \/
      exists head e,
        t !! i = Some head /\ In e head /\ ip e = ip e' /\
        refcount e = refcount e'.
Proof.
  cbv zeta.
  assert (Hsame : forall (i : nat) head' e',
             t !! i = Some head' -> In e' head' ->
             e' = fresh_entry ip4 mac jiffies \/
             exists head e,
               t !! i = Some head /\ In e head /\ ip e = ip e' /\
               refcount e = refcount e').
  { intros i head' e' Hb Hin. right. exists head', e'. auto. }
  destruct (batadv_dat_entry_hash_find (Some t) ip4) as [[[h e]|] hash'] eqn:F.
  - pose proof F as F'. unfold batadv_dat_entry_hash_find in F'.
    destruct (t !! dat_index t ip4) as [head|] eqn:Hb; [|discriminate].
    destruct (hash_find_bucket ip4 head) as [[[i e1]|] head1] eqn:Fb;
      [|discriminate].
    apply hash_find_bucket_found in Fb as (e0 & Hl & Hip & Hrc & _ & _ & Hsk).
    assert (Hfl : first_live t ip4 head i e0) by (unfold first_live; auto).
    destruct (entry_add_known t ip4 mac jiffies kmalloc head i e0 Hfl)
      as (-> & _).
    cbn [fst snd]. split; [intros e' []|].
    eexists. split; [reflexivity|].
    intros i0 head' e' Hb' Hin.
    destruct (decide (i0 = dat_index t ip4)) as [->|Ni].
    + rewrite list_lookup_insert_eq in Hb'
        by (eapply lookup_lt_Some; exact Hb).
      injection Hb' as <-. apply In_insert in Hin as [->|Hin].
      * right. exists head, e0. split; [exact Hb|].
        split; [|split; reflexivity].
        apply list_elem_of_In. eapply list_elem_of_lookup_2. exact Hl.
      * right. exists head, e'. auto.
    + rewrite list_lookup_insert_ne in Hb' by congruence.
      exact (Hsame i0 head' e' Hb' Hin).
  - pose proof F as F'. apply hash_find_not_found in F' as (-> & Hskip).
    unfold batadv_dat_entry_add. rewrite F.
    unfold batadv_dat_entry_add_new.
    destruct kmalloc; cbn [negb].
    2: { cbn [fst snd]. split; [intros e' []|]. exists t. auto. }
    unfold batadv_hash_add.
    destruct (t !! dat_index t ip4) as [head|] eqn:Hb.
    2: { apply lookup_ge_None in Hb. pose proof (dat_index_lt t ip4 Hne). lia. }
    destruct (existsb _ head) eqn:Ex.
    + cbn [batadv_dat_entry_free_ref set_refcount refcount ip mac_addr
             last_update fst snd].
      change (2 - 1 =? 0) with false. change (2 - 1 - 1 =? 0) with true.
      cbn [app fst snd]. split; [|exists t; auto].
      intros e' [<-|[]]. split; [reflexivity|]. split; [reflexivity|].
      split; [reflexivity|].
      apply hash_add_duplicate in Ex as (e0 & Hin & Hip).
      exists head, e0. split; [reflexivity|]. split; [exact Hin|].
      split; [exact Hip|].
      specialize (Hskip head eq_refl). rewrite List.Forall_forall in Hskip.
      destruct (Hskip e0 Hin) as [N|Z0]; [congruence | exact Z0].
    + pose proof (entry_add_new_links t ip4 mac jiffies head Hb Ex) as H.
      unfold batadv_dat_entry_add_new, batadv_hash_add in H.
      cbn [negb] in H. rewrite Hb, Ex in H. rewrite H. cbn [fst snd].
      split; [intros e' []|]. eexists. split; [reflexivity|].
      intros i0 head' e' Hb' Hin.
      destruct (decide (i0 = dat_index t ip4)) as [->|Ni].
      * rewrite list_lookup_insert_eq in Hb'
          by (eapply lookup_lt_Some; exact Hb).
        injection Hb' as <-. destruct Hin as [<-|Hin]; [now left|].
        right. exists head, e'. auto.
      * rewrite list_lookup_insert_ne in Hb' by congruence.
        exact (Hsame i0 head' e' Hb' Hin).
Qed.

Lemma entry_add_frees_only_its_own_entry_witness :
  let released := {| ip := 5; mac_addr := 1; last_update := 0;
                     refcount := 0 |} in
  batadv_dat_entry_add (Some [[released]]) 5 2 10 true
  = (Some [[released]],
     [ {| ip := 5; mac_addr := 2; last_update := 10; refcount := 0 |} ]) /\
  forall e,
    In e (batadv_dat_entry_add (Some [[released]]) 5 2 10 true).2 ->
    e = {| ip := 5; mac_addr := 2; last_update := 10; refcount := 0 |}.
Proof.
  intros released. split; [vm_compute; reflexivity|].
  intros e Hin.
  assert (Hne : [[released]] <> []) by discriminate.
  destruct (entry_add_frees_only_its_own_entry [[released]] 5 2 10 true Hne)
    as (Hfreed & _).
  now destruct (Hfreed e Hin).
Defined.
